(** * ReleaseGuard: the evaluation engine

    A shallow embedding of [releaseguard/engine/rules.py] and
    [releaseguard/engine/scoring.py], with the parts of
    [releaseguard/db/models.py] and [releaseguard/config.py] they read.

    Conventions of the embedding.
    - A Python [float] is an exact rational ([Q]); numeric equality is
      [Qeq] ([==]).  Rounding of binary64, infinities and NaN are outside
      the model, and with them the [OverflowError] and [ValueError] that
      [int(total_tests)] raises on an infinite or NaN value: what is stated
      of a result is stated of the evaluations that return one.  The one
      place where rounding is looked at is the module [Binary64], which
      runs [compute_coverage_risk] on binary64 values.
    - A [dict] with string keys is a [gmap string Q]; [d[k]] on a missing
      key raises [KeyError k].
    - Exceptions are threaded through the [result] monad, in the order the
      statements of the source run.
    - The process-wide [settings] object is an explicit argument. *)

From Stdlib Require Import QArith Qminmax Qround Lqa Lia.
From Stdlib Require PrimFloat.
From stdpp Require Import gmap strings list.

Open Scope Q_scope.

(** ** Python values and built-ins *)

Inductive exn : Type :=
  | KeyError (key : string).

Inductive result (A : Type) : Type :=
  | Ok (a : A)
  | Raise (e : exn).

Arguments Ok {A} a.
Arguments Raise {A} e.

#[global] Instance result_ret : MRet result := fun _ a => Ok a.
#[global] Instance result_bind : MBind result := fun _ _ f m =>
  match m with
  | Ok a => f a
  | Raise e => Raise e
  end.

Definition is_Ok {A} (r : result A) : bool :=
  match r with Ok _ => true | Raise _ => false end.

(** [d[key]] *)
Definition getitem (d : gmap string Q) (key : string) : result Q :=
  match d !! key with
  | Some v => Ok v
  | None => Raise (KeyError key)
  end.

(** Truth value of a dict: false exactly for the empty one. *)
Definition dict_truthy (d : gmap string Q) : bool :=
  match map_to_list d with
  | [] => false
  | _ :: _ => true
  end.

(** [supplied or default], for an [Optional[dict]] argument. *)
Definition py_or (supplied : option (gmap string Q)) (default : gmap string Q)
  : gmap string Q :=
  match supplied with
  | Some d => if dict_truthy d then d else default
  | None => default
  end.

(** [a < b], [a >= b] and [a <= b] on floats. *)
Definition py_lt (a b : Q) : bool := negb (Qle_bool b a).
Definition py_ge (a b : Q) : bool := Qle_bool b a.
Definition py_le (a b : Q) : bool := Qle_bool a b.

(** [min(a, b)]: the first argument unless the second is strictly smaller. *)
Definition py_min (a b : Q) : Q := if py_lt b a then b else a.

(** [max(xs)] on a non-empty list: the first maximal element. *)
Definition py_max (xs : list Q) : Q :=
  match xs with
  | [] => 0
  | x :: rest => fold_left (fun m y => if py_lt m y then y else m) rest x
  end.

(** [sum(xs)]: left to right, starting from 0. *)
Definition py_sum (xs : list Q) : Q := fold_left Qplus xs 0.

(** [len(xs)], as the float it is converted to by [/]. *)
Definition py_len (xs : list Q) : Q := inject_Z (Z.of_nat (length xs)).

(** ** [releaseguard/db/models.py] *)

Module SignalType.
Inductive t : Set := TEST | COVERAGE | PERF | CANARY | DEP.

#[global] Instance eq_dec : EqDecision t.
Proof. solve_decision. Defined.
End SignalType.

Module Decision.
Inductive t : Set := APPROVE | WARN | BLOCK.

#[global] Instance eq_dec : EqDecision t.
Proof. solve_decision. Defined.
End Decision.

(** The columns of [Signal] the engine reads, and [value_text], which a
    signal may carry instead of a number. *)
Record Signal : Type := {
  type : SignalType.t;
  name : string;
  value_num : option Q;
  value_text : option string
}.

(** ** [releaseguard/config.py] *)

Record Settings : Type := {
  approve_threshold : Q;
  warn_threshold : Q
}.

Definition settings : Settings :=
  {| approve_threshold := 30.0; warn_threshold := 60.0 |}.

(** ** [releaseguard/engine/rules.py] *)

Module Severity.
Inductive t : Set := BLOCK | WARN | INFO.

#[global] Instance eq_dec : EqDecision t.
Proof. solve_decision. Defined.
End Severity.

(** The f-string of a rule's message, kept as its pieces: the leading text,
    the observed value, the comparison sign, the limit and the trailing
    text.  The rendering of the two numbers ([.1%], [.0%], [int]) is not
    modelled. *)
Record Message : Type := {
  msg_head : string;
  msg_observed : Q;
  msg_sign : string;
  msg_limit : Q;
  msg_tail : string
}.

Record RuleResult : Type := {
  rule : string;
  severity : Severity.t;
  observed : Q;
  limit : Q;
  message : Message;
  passed : bool
}.

Definition DEFAULT_THRESHOLDS : gmap string Q :=
  <["e2e_pass_rate_min" := 0.98]> (
  <["integration_pass_rate_min" := 0.95]> (
  <["unit_pass_rate_min" := 0.95]> (
  <["total_tests_min" := 1]> (
  <["line_coverage_min" := 0.70]> (
  <["coverage_drop_max" := 0.02]> (
  <["p95_regression_max" := 0.15]> (
  <["error_rate_max" := 0.01]> (
  <["canary_5xx_rate_max" := 0.01]> ∅)))))))).

Fixpoint get_signal_value (signals : list Signal) (signal_type : SignalType.t)
    (key : string) : option Q :=
  match signals with
  | [] => None
  | signal :: rest =>
      if bool_decide (signal.(type) = signal_type)
         && bool_decide (signal.(name) = key)
      then signal.(value_num)
      else get_signal_value rest signal_type key
  end.

(** Hard gate rules that can immediately block a release.
    In each branch [t[key]] is read once: the source reads it again for
    [limit] and for the message, with the same outcome.
    The message of TOTAL_TESTS formats [int(total_tests)], which raises
    [OverflowError] on an infinite and [ValueError] on a NaN value; a
    rational is neither, so the function below has no such failure, and
    nothing is concluded from its returning about a release that carries
    such a value. *)
Definition evaluate_hard_gates (signals : list Signal)
    (thresholds : option (gmap string Q)) : result (list RuleResult) :=
  let results := [] in
  let t := py_or thresholds DEFAULT_THRESHOLDS in
  let e2e_pass_rate := get_signal_value signals SignalType.TEST "e2e_pass_rate" in
  results ←
    match e2e_pass_rate with
    | Some e2e_pass_rate =>
        lim ← getitem t "e2e_pass_rate_min";
        let passed := py_ge e2e_pass_rate lim in
        mret (results ++ [
          {| rule := "E2E_PASS_RATE";
             severity := if negb passed then Severity.BLOCK else Severity.INFO;
             observed := e2e_pass_rate;
             limit := lim;
             message :=
               {| msg_head := "E2E pass rate";
                  msg_observed := e2e_pass_rate;
                  msg_sign := if negb passed then "<" else ">=";
                  msg_limit := lim;
                  msg_tail := "threshold" |};
             passed := passed |}])
    | None => mret results
    end;
  let integration_pass_rate := get_signal_value signals SignalType.TEST "integration_pass_rate" in
  results ←
    match integration_pass_rate with
    | Some integration_pass_rate =>
        lim ← getitem t "integration_pass_rate_min";
        let passed := py_ge integration_pass_rate lim in
        mret (results ++ [
          {| rule := "INTEGRATION_PASS_RATE";
             severity := if negb passed then Severity.BLOCK else Severity.INFO;
             observed := integration_pass_rate;
             limit := lim;
             message :=
               {| msg_head := "Integration pass rate";
                  msg_observed := integration_pass_rate;
                  msg_sign := if negb passed then "<" else ">=";
                  msg_limit := lim;
                  msg_tail := "threshold" |};
             passed := passed |}])
    | None => mret results
    end;
  let unit_pass_rate := get_signal_value signals SignalType.TEST "unit_pass_rate" in
  results ←
    match unit_pass_rate with
    | Some unit_pass_rate =>
        lim ← getitem t "unit_pass_rate_min";
        let passed := py_ge unit_pass_rate lim in
        mret (results ++ [
          {| rule := "UNIT_PASS_RATE";
             severity := if negb passed then Severity.BLOCK else Severity.INFO;
             observed := unit_pass_rate;
             limit := lim;
             message :=
               {| msg_head := "Unit pass rate";
                  msg_observed := unit_pass_rate;
                  msg_sign := if negb passed then "<" else ">=";
                  msg_limit := lim;
                  msg_tail := "threshold" |};
             passed := passed |}])
    | None => mret results
    end;
  let total_tests := get_signal_value signals SignalType.TEST "total_tests" in
  results ←
    match total_tests with
    | Some total_tests =>
        lim ← getitem t "total_tests_min";
        let passed := py_ge total_tests lim in
        mret (results ++ [
          {| rule := "TOTAL_TESTS";
             severity := if negb passed then Severity.BLOCK else Severity.INFO;
             observed := total_tests;
             limit := lim;
             message :=
               {| msg_head := "Total tests executed:";
                  msg_observed := total_tests;
                  msg_sign := if negb passed then "<" else ">=";
                  msg_limit := lim;
                  msg_tail := "minimum" |};
             passed := passed |}])
    | None => mret results
    end;
  let line_coverage := get_signal_value signals SignalType.COVERAGE "line_coverage" in
  results ←
    match line_coverage with
    | Some line_coverage =>
        lim ← getitem t "line_coverage_min";
        let passed := py_ge line_coverage lim in
        mret (results ++ [
          {| rule := "LINE_COVERAGE";
             severity := if negb passed then Severity.WARN else Severity.INFO;
             observed := line_coverage;
             limit := lim;
             message :=
               {| msg_head := "Line coverage";
                  msg_observed := line_coverage;
                  msg_sign := if negb passed then "<" else ">=";
                  msg_limit := lim;
                  msg_tail := "threshold" |};
             passed := passed |}])
    | None => mret results
    end;
  let coverage_drop := get_signal_value signals SignalType.COVERAGE "coverage_drop" in
  results ←
    match coverage_drop with
    | Some coverage_drop =>
        lim ← getitem t "coverage_drop_max";
        let passed := py_le coverage_drop lim in
        mret (results ++ [
          {| rule := "COVERAGE_DROP";
             severity := if negb passed then Severity.WARN else Severity.INFO;
             observed := coverage_drop;
             limit := lim;
             message :=
               {| msg_head := "Coverage drop";
                  msg_observed := coverage_drop;
                  msg_sign := if negb passed then ">" else "<=";
                  msg_limit := lim;
                  msg_tail := "max allowed" |};
             passed := passed |}])
    | None => mret results
    end;
  mret results.

(** Performance-related rules.
    In each branch [t[key]] is read once: the source reads it again for
    [limit] and for the message, with the same outcome. *)
Definition evaluate_performance_gates (signals : list Signal)
    (thresholds : option (gmap string Q)) : result (list RuleResult) :=
  let results := [] in
  let t := py_or thresholds DEFAULT_THRESHOLDS in
  let p95_regression := get_signal_value signals SignalType.PERF "p95_regression" in
  results ←
    match p95_regression with
    | Some p95_regression =>
        lim ← getitem t "p95_regression_max";
        let passed := py_le p95_regression lim in
        mret (results ++ [
          {| rule := "P95_REGRESSION";
             severity := if negb passed then Severity.BLOCK else Severity.INFO;
             observed := p95_regression;
             limit := lim;
             message :=
               {| msg_head := "P95 latency regression";
                  msg_observed := p95_regression;
                  msg_sign := if negb passed then ">" else "<=";
                  msg_limit := lim;
                  msg_tail := "max" |};
             passed := passed |}])
    | None => mret results
    end;
  let error_rate := get_signal_value signals SignalType.PERF "error_rate" in
  results ←
    match error_rate with
    | Some error_rate =>
        lim ← getitem t "error_rate_max";
        let passed := py_le error_rate lim in
        mret (results ++ [
          {| rule := "ERROR_RATE";
             severity := if negb passed then Severity.BLOCK else Severity.INFO;
             observed := error_rate;
             limit := lim;
             message :=
               {| msg_head := "Error rate";
                  msg_observed := error_rate;
                  msg_sign := if negb passed then ">" else "<=";
                  msg_limit := lim;
                  msg_tail := "max" |};
             passed := passed |}])
    | None => mret results
    end;
  mret results.

(** Canary health rules.
    In each branch [t[key]] is read once: the source reads it again for
    [limit] and for the message, with the same outcome. *)
Definition evaluate_canary_gates (signals : list Signal)
    (thresholds : option (gmap string Q)) : result (list RuleResult) :=
  let results := [] in
  let t := py_or thresholds DEFAULT_THRESHOLDS in
  let canary_5xx_rate := get_signal_value signals SignalType.CANARY "5xx_rate" in
  results ←
    match canary_5xx_rate with
    | Some canary_5xx_rate =>
        lim ← getitem t "canary_5xx_rate_max";
        let passed := py_le canary_5xx_rate lim in
        mret (results ++ [
          {| rule := "CANARY_5XX_RATE";
             severity := if negb passed then Severity.BLOCK else Severity.INFO;
             observed := canary_5xx_rate;
             limit := lim;
             message :=
               {| msg_head := "Canary 5xx rate";
                  msg_observed := canary_5xx_rate;
                  msg_sign := if negb passed then ">" else "<=";
                  msg_limit := lim;
                  msg_tail := "max" |};
             passed := passed |}])
    | None => mret results
    end;
  mret results.

(** ** [releaseguard/engine/scoring.py] *)

Definition DEFAULT_WEIGHTS : gmap string Q :=
  <["tests" := 0.35]> (
  <["coverage" := 0.10]> (
  <["perf" := 0.25]> (
  <["canary" := 0.25]> (
  <["deps" := 0.05]> ∅)))).

Record EvaluationResult : Type := {
  decision : Decision.t;
  risk_score : Q;
  rationale : list RuleResult
}.

(** [risks.append(x)] when the looked-up signal is present. *)
Definition append_if_present (risks : list Q) (value : option Q)
    (term : Q -> Q) : list Q :=
  match value with
  | Some v => risks ++ [term v]
  | None => risks
  end.

Definition compute_test_risk (signals : list Signal) : Q :=
  let risks := [] in
  let unit_pass_rate := get_signal_value signals SignalType.TEST "unit_pass_rate" in
  let risks := append_if_present risks unit_pass_rate (fun v => 1 - v) in
  let integration_pass_rate :=
    get_signal_value signals SignalType.TEST "integration_pass_rate" in
  let risks := append_if_present risks integration_pass_rate (fun v => 1 - v) in
  let e2e_pass_rate := get_signal_value signals SignalType.TEST "e2e_pass_rate" in
  let risks := append_if_present risks e2e_pass_rate (fun v => (1 - v) * 1.5) in
  let flaky_rate := get_signal_value signals SignalType.TEST "flaky_rate" in
  let risks := append_if_present risks flaky_rate (fun v => v * 0.5) in
  match risks with
  | [] => 0.0
  | _ :: _ => py_min 1.0 (py_sum risks / py_len risks)
  end.

Definition compute_coverage_risk (signals : list Signal) : Q :=
  let risks := [] in
  let line_coverage := get_signal_value signals SignalType.COVERAGE "line_coverage" in
  let risks := append_if_present risks line_coverage (fun v => 1 - v) in
  let coverage_drop := get_signal_value signals SignalType.COVERAGE "coverage_drop" in
  let risks := append_if_present risks coverage_drop (fun v => py_min 1.0 (v * 10)) in
  match risks with
  | [] => 0.0
  | _ :: _ => py_min 1.0 (py_max risks)
  end.

Definition compute_perf_risk (signals : list Signal) : Q :=
  let risks := [] in
  let p95_regression := get_signal_value signals SignalType.PERF "p95_regression" in
  let risks := append_if_present risks p95_regression (fun v => py_min 1.0 (v / 0.15)) in
  let error_rate := get_signal_value signals SignalType.PERF "error_rate" in
  let risks := append_if_present risks error_rate (fun v => py_min 1.0 (v / 0.01)) in
  match risks with
  | [] => 0.0
  | _ :: _ => py_min 1.0 (py_max risks)
  end.

Definition compute_canary_risk (signals : list Signal) : Q :=
  let risks := [] in
  let canary_5xx_rate := get_signal_value signals SignalType.CANARY "5xx_rate" in
  let risks := append_if_present risks canary_5xx_rate (fun v => py_min 1.0 (v / 0.01)) in
  let canary_latency_regression :=
    get_signal_value signals SignalType.CANARY "p95_regression" in
  let risks :=
    append_if_present risks canary_latency_regression (fun v => py_min 1.0 (v / 0.15)) in
  match risks with
  | [] => 0.0
  | _ :: _ => py_min 1.0 (py_max risks)
  end.

(** The four risks are computed before the first weight is read, and the
    weights are read in the order of the sum. *)
Definition compute_weighted_risk_score (signals : list Signal)
    (weights : option (gmap string Q)) : result Q :=
  let w := py_or weights DEFAULT_WEIGHTS in
  let test_risk := compute_test_risk signals in
  let coverage_risk := compute_coverage_risk signals in
  let perf_risk := compute_perf_risk signals in
  let canary_risk := compute_canary_risk signals in
  w_tests ← getitem w "tests";
  w_coverage ← getitem w "coverage";
  w_perf ← getitem w "perf";
  w_canary ← getitem w "canary";
  let weighted_score :=
    w_tests * test_risk
    + w_coverage * coverage_risk
    + w_perf * perf_risk
    + w_canary * canary_risk in
  mret (weighted_score * 100).

(** [any(r.severity == sev and not r.passed for r in all_results)] *)
Definition any_failed (sev : Severity.t) (all_results : list RuleResult) : bool :=
  existsb (fun r => bool_decide (r.(severity) = sev) && negb r.(passed)) all_results.

(** [cfg] is the module-level [settings] the source reads. *)
Definition evaluate_release (signals : list Signal)
    (thresholds weights : option (gmap string Q)) (cfg : Settings)
  : result EvaluationResult :=
  let all_results := [] in
  hard ← evaluate_hard_gates signals thresholds;
  let all_results := all_results ++ hard in
  perf ← evaluate_performance_gates signals thresholds;
  let all_results := all_results ++ perf in
  canary ← evaluate_canary_gates signals thresholds;
  let all_results := all_results ++ canary in
  let has_block := any_failed Severity.BLOCK all_results in
  let has_warn := any_failed Severity.WARN all_results in
  risk_score ← compute_weighted_risk_score signals weights;
  let decision :=
    if has_block then Decision.BLOCK
    else if has_warn || py_ge risk_score cfg.(warn_threshold) then Decision.WARN
    else if py_ge risk_score cfg.(approve_threshold) then Decision.WARN
    else Decision.APPROVE in
  let decision :=
    if py_ge risk_score cfg.(warn_threshold) then Decision.BLOCK else decision in
  mret {| decision := decision; risk_score := risk_score; rationale := all_results |}.

(** ** [compute_coverage_risk] on binary64 values

    The function again, with the signal values as the binary64 floats
    Python computes with. *)

Module Binary64.
Import PrimFloat.
#[local] Set Warnings "-inexact-float".
#[local] Open Scope float_scope.

Record Signal : Type := {
  type : SignalType.t;
  name : string;
  value_num : option float
}.

Fixpoint get_signal_value (signals : list Signal) (signal_type : SignalType.t)
    (key : string) : option float :=
  match signals with
  | [] => None
  | signal :: rest =>
      if bool_decide (signal.(type) = signal_type)
         && bool_decide (signal.(name) = key)
      then signal.(value_num)
      else get_signal_value rest signal_type key
  end.

(** [min(a, b)]: the first argument unless the second is strictly smaller. *)
Definition py_min (a b : float) : float := if ltb b a then b else a.

(** [max(xs)] on a non-empty list: the first maximal element. *)
Definition py_max (xs : list float) : float :=
  match xs with
  | [] => 0
  | x :: rest => fold_left (fun m y => if ltb m y then y else m) rest x
  end.

Definition append_if_present (risks : list float) (value : option float)
    (term : float -> float) : list float :=
  match value with
  | Some v => risks ++ [term v]
  | None => risks
  end.

Definition compute_coverage_risk (signals : list Signal) : float :=
  let risks := [] in
  let line_coverage := get_signal_value signals SignalType.COVERAGE "line_coverage" in
  let risks := append_if_present risks line_coverage (fun v => 1 - v) in
  let coverage_drop := get_signal_value signals SignalType.COVERAGE "coverage_drop" in
  let risks := append_if_present risks coverage_drop (fun v => py_min 1.0 (v * 10)) in
  match risks with
  | [] => 0.0
  | _ :: _ => py_min 1.0 (py_max risks)
  end.

(** [make_signal] of [tests/test_engine.py]. *)
Definition make_signal (signal_type : SignalType.t) (key : string)
    (value : float) : Signal :=
  {| type := signal_type; name := key; value_num := Some value |}.

(** [test_coverage_risk] and [test_coverage_drop_risk] of
    [tests/test_engine.py]: the risk computed, and the [==] of the
    assertion against the literal of the test. *)
Definition coverage_risk_test : float * bool :=
  let signals := [make_signal SignalType.COVERAGE "line_coverage" 0.90] in
  let risk := compute_coverage_risk signals in
  (risk, eqb risk 0.10).

Definition coverage_drop_risk_test : float * bool :=
  let signals := [make_signal SignalType.COVERAGE "coverage_drop" 0.05] in
  let risk := compute_coverage_risk signals in
  (risk, eqb risk 0.5).

(** What Python prints for [1 - 0.90]. *)
Definition one_minus_0_90 : float := 0.09999999999999998.
End Binary64.

(** ** The specification's vocabulary *)

(** *** Configuration keys (section 3) *)

Definition THRESHOLD_KEYS : list string :=
  ["e2e_pass_rate_min"; "integration_pass_rate_min"; "unit_pass_rate_min";
   "total_tests_min"; "line_coverage_min"; "coverage_drop_max";
   "p95_regression_max"; "error_rate_max"; "canary_5xx_rate_max"].

Definition WEIGHT_KEYS : list string :=
  ["tests"; "coverage"; "perf"; "canary"; "deps"].

(** The weight keys the scorer reads: every one but [deps]. *)
Definition SCORED_WEIGHT_KEYS : list string :=
  ["tests"; "coverage"; "perf"; "canary"].

(** A mapping holds every key of [keys]. *)
Definition complete (keys : list string) (d : gmap string Q) : Prop :=
  ∀ k, k ∈ keys → is_Some (d !! k).

(** An optional override is either not supplied or complete. *)
Definition complete_override (keys : list string)
    (supplied : option (gmap string Q)) : Prop :=
  ∀ d, supplied = Some d → complete keys d.

(** *** The catalog of checks (section 4.2) *)

Inductive Comparator : Set :=
  | AtLeast   (* observed >= limit *)
  | AtMost.   (* observed <= limit *)

Record Check : Type := {
  check_rule : string;
  check_type : SignalType.t;
  check_signal : string;
  comparator : Comparator;
  limit_key : string;
  on_fail : Severity.t;
  check_head : string;
  check_tail : string
}.

Definition catalog : list Check :=
  [ {| check_rule := "E2E_PASS_RATE"; check_type := SignalType.TEST;
       check_signal := "e2e_pass_rate"; comparator := AtLeast;
       limit_key := "e2e_pass_rate_min"; on_fail := Severity.BLOCK;
       check_head := "E2E pass rate"; check_tail := "threshold" |};
    {| check_rule := "INTEGRATION_PASS_RATE"; check_type := SignalType.TEST;
       check_signal := "integration_pass_rate"; comparator := AtLeast;
       limit_key := "integration_pass_rate_min"; on_fail := Severity.BLOCK;
       check_head := "Integration pass rate"; check_tail := "threshold" |};
    {| check_rule := "UNIT_PASS_RATE"; check_type := SignalType.TEST;
       check_signal := "unit_pass_rate"; comparator := AtLeast;
       limit_key := "unit_pass_rate_min"; on_fail := Severity.BLOCK;
       check_head := "Unit pass rate"; check_tail := "threshold" |};
    {| check_rule := "TOTAL_TESTS"; check_type := SignalType.TEST;
       check_signal := "total_tests"; comparator := AtLeast;
       limit_key := "total_tests_min"; on_fail := Severity.BLOCK;
       check_head := "Total tests executed:"; check_tail := "minimum" |};
    {| check_rule := "LINE_COVERAGE"; check_type := SignalType.COVERAGE;
       check_signal := "line_coverage"; comparator := AtLeast;
       limit_key := "line_coverage_min"; on_fail := Severity.WARN;
       check_head := "Line coverage"; check_tail := "threshold" |};
    {| check_rule := "COVERAGE_DROP"; check_type := SignalType.COVERAGE;
       check_signal := "coverage_drop"; comparator := AtMost;
       limit_key := "coverage_drop_max"; on_fail := Severity.WARN;
       check_head := "Coverage drop"; check_tail := "max allowed" |};
    {| check_rule := "P95_REGRESSION"; check_type := SignalType.PERF;
       check_signal := "p95_regression"; comparator := AtMost;
       limit_key := "p95_regression_max"; on_fail := Severity.BLOCK;
       check_head := "P95 latency regression"; check_tail := "max" |};
    {| check_rule := "ERROR_RATE"; check_type := SignalType.PERF;
       check_signal := "error_rate"; comparator := AtMost;
       limit_key := "error_rate_max"; on_fail := Severity.BLOCK;
       check_head := "Error rate"; check_tail := "max" |};
    {| check_rule := "CANARY_5XX_RATE"; check_type := SignalType.CANARY;
       check_signal := "5xx_rate"; comparator := AtMost;
       limit_key := "canary_5xx_rate_max"; on_fail := Severity.BLOCK;
       check_head := "Canary 5xx rate"; check_tail := "max" |} ].

(** Whether the comparison of a check holds. *)
Definition holds (cmp : Comparator) (observed limit : Q) : bool :=
  match cmp with
  | AtLeast => Qle_bool limit observed
  | AtMost => Qle_bool observed limit
  end.

(** The sign a message shows for a comparison and its outcome. *)
Definition sign_of (cmp : Comparator) (ok : bool) : string :=
  match cmp, ok with
  | AtLeast, true => ">="
  | AtLeast, false => "<"
  | AtMost, true => "<="
  | AtMost, false => ">"
  end.

(** The one RuleResult of an evaluated check. *)
Definition check_result (c : Check) (v lim : Q) : RuleResult :=
  let ok := holds c.(comparator) v lim in
  {| rule := c.(check_rule);
     severity := if ok then Severity.INFO else c.(on_fail);
     observed := v;
     limit := lim;
     message :=
       {| msg_head := c.(check_head);
          msg_observed := v;
          msg_sign := sign_of c.(comparator) ok;
          msg_limit := lim;
          msg_tail := c.(check_tail) |};
     passed := ok |}.

(** The checks run uniformly, in catalog order, against one mapping. *)
Fixpoint run_catalog (checks : list Check) (signals : list Signal)
    (t : gmap string Q) : result (list RuleResult) :=
  match checks with
  | [] => mret []
  | c :: rest =>
      match get_signal_value signals c.(check_type) c.(check_signal) with
      | None => run_catalog rest signals t
      | Some v =>
          lim ← getitem t c.(limit_key);
          results ← run_catalog rest signals t;
          mret (check_result c v lim :: results)
      end
  end.

(** The three gate functions, one after the other, as [evaluate_release]
    runs them. *)
Definition all_gates (signals : list Signal)
    (thresholds : option (gmap string Q)) : result (list RuleResult) :=
  hard ← evaluate_hard_gates signals thresholds;
  perf ← evaluate_performance_gates signals thresholds;
  canary ← evaluate_canary_gates signals thresholds;
  mret (hard ++ perf ++ canary).

(** The results of [results] that carry the rule id of [c]. *)
Definition results_of (c : Check) (results : list RuleResult) : list RuleResult :=
  filter (λ r, r.(rule) = c.(check_rule)) results.

(** One branch of a gate function, as a step on the [results] list. *)
Definition gate_step (signals : list Signal) (t : gmap string Q) (c : Check)
    (results : list RuleResult) : result (list RuleResult) :=
  match get_signal_value signals c.(check_type) c.(check_signal) with
  | Some v =>
      lim ← getitem t c.(limit_key);
      mret (results ++ [check_result c v lim])
  | None => mret results
  end.

(** The branches of a gate function, one after the other. *)
Fixpoint gate_steps (signals : list Signal) (t : gmap string Q)
    (checks : list Check) (results : list RuleResult)
  : result (list RuleResult) :=
  match checks with
  | [] => mret results
  | c :: rest =>
      results ← gate_step signals t c results;
      gate_steps signals t rest results
  end.

(** *** The decision policy (section 4.5) *)

#[global] Instance Qle_decision (x y : Q) : Decision (x <= y).
Proof.
  destruct (Qlt_le_dec y x) as [Hlt | Hle].
  - right. apply Qlt_not_le, Hlt.
  - left. exact Hle.
Defined.

(** A failed result of severity [sev]. *)
Definition failed_with (sev : Severity.t) (r : RuleResult) : Prop :=
  r.(severity) = sev ∧ r.(passed) = false.

#[global] Instance failed_with_dec sev r : Decision (failed_with sev r).
Proof. unfold failed_with. apply _. Defined.

(** The four tiers, first match wins. *)
Definition decision_policy (results : list RuleResult) (score : Q)
    (cfg : Settings) : Decision.t :=
  if decide (cfg.(warn_threshold) <= score) then Decision.BLOCK
  else if decide (Exists (failed_with Severity.BLOCK) results) then Decision.BLOCK
  else if decide (Exists (failed_with Severity.WARN) results
                  ∨ cfg.(approve_threshold) <= score) then Decision.WARN
  else Decision.APPROVE.

(** *** Risk terms (section 4.3) *)

(** A term of a category risk: the signal it reads and its value. *)
Record Term : Type := {
  term_type : SignalType.t;
  term_signal : string;
  term_value : Q → Q
}.

Definition test_terms : list Term :=
  [ {| term_type := SignalType.TEST; term_signal := "unit_pass_rate";
       term_value := λ v, 1 - v |};
    {| term_type := SignalType.TEST; term_signal := "integration_pass_rate";
       term_value := λ v, 1 - v |};
    {| term_type := SignalType.TEST; term_signal := "e2e_pass_rate";
       term_value := λ v, (1 - v) * 1.5 |};
    {| term_type := SignalType.TEST; term_signal := "flaky_rate";
       term_value := λ v, v * 0.5 |} ].

Definition coverage_terms : list Term :=
  [ {| term_type := SignalType.COVERAGE; term_signal := "line_coverage";
       term_value := λ v, 1 - v |};
    {| term_type := SignalType.COVERAGE; term_signal := "coverage_drop";
       term_value := λ v, Qmin 1 (v * 10) |} ].

(** The values of the terms whose signal is present, in table order. *)
Definition present_terms (terms : list Term) (signals : list Signal) : list Q :=
  omap (λ tm, tm.(term_value) <$>
              get_signal_value signals tm.(term_type) tm.(term_signal)) terms.

Definition Qsum (xs : list Q) : Q := foldr Qplus 0 xs.

(** Sum over count. *)
Definition average (xs : list Q) : Q :=
  Qsum xs / inject_Z (Z.of_nat (length xs)).

(** The greatest element of [x :: xs]. *)
Definition maximum (x : Q) (xs : list Q) : Q := foldr Qmax x xs.

(** *** The weighted score (section 4.4) *)

Definition weighted_formula (w_tests w_coverage w_perf w_canary : Q)
    (signals : list Signal) : Q :=
  100 * (w_tests * compute_test_risk signals
         + w_coverage * compute_coverage_risk signals
         + w_perf * compute_perf_risk signals
         + w_canary * compute_canary_risk signals).

(** [r] is the score the formula gives with the weights of [w]. *)
Definition scores_as (signals : list Signal) (w : gmap string Q)
    (r : result Q) : Prop :=
  ∃ w_tests w_coverage w_perf w_canary score,
    w !! "tests" = Some w_tests ∧ w !! "coverage" = Some w_coverage ∧
    w !! "perf" = Some w_perf ∧ w !! "canary" = Some w_canary ∧
    r = Ok score ∧
    score == weighted_formula w_tests w_coverage w_perf w_canary signals.

(** *** Edits of a signal sequence *)

Definition matches (signal_type : SignalType.t) (key : string) (s : Signal) : bool :=
  bool_decide (s.(type) = signal_type) && bool_decide (s.(name) = key).

(** The first signal of the key gets the numeric value [v]. *)
Fixpoint replace_first (signals : list Signal) (signal_type : SignalType.t)
    (key : string) (v : Q) : list Signal :=
  match signals with
  | [] => []
  | s :: rest =>
      if matches signal_type key s
      then {| type := s.(type); name := s.(name); value_num := Some v;
              value_text := s.(value_text) |} :: rest
      else s :: replace_first rest signal_type key v
  end.

(** Every signal of the key is dropped. *)
Definition without (signal_type : SignalType.t) (key : string)
    (signals : list Signal) : list Signal :=
  List.filter (λ s, negb (matches signal_type key s)) signals.

Definition PASS_RATE_KEYS : list string :=
  ["unit_pass_rate"; "integration_pass_rate"; "e2e_pass_rate"].

(** A signal with a numeric value only, as the tests build them. *)
Definition make_signal (signal_type : SignalType.t) (key : string) (value : Q)
  : Signal :=
  {| type := signal_type; name := key; value_num := Some value;
     value_text := None |}.

(** ** The signals the engine reads *)

(** The (type, name) keys looked up by the gates and the risk functions. *)
Definition ENGINE_KEYS : list (SignalType.t * string) :=
  [ (SignalType.TEST, "e2e_pass_rate");
    (SignalType.TEST, "integration_pass_rate");
    (SignalType.TEST, "unit_pass_rate");
    (SignalType.TEST, "total_tests");
    (SignalType.TEST, "flaky_rate");
    (SignalType.COVERAGE, "line_coverage");
    (SignalType.COVERAGE, "coverage_drop");
    (SignalType.PERF, "p95_regression");
    (SignalType.PERF, "error_rate");
    (SignalType.CANARY, "5xx_rate");
    (SignalType.CANARY, "p95_regression") ].

(** The keys whose risk term grows with the value, so that a negative value
    gives a negative term. *)
Definition RISING_KEYS : list (SignalType.t * string) :=
  [ (SignalType.TEST, "flaky_rate");
    (SignalType.COVERAGE, "coverage_drop");
    (SignalType.PERF, "p95_regression");
    (SignalType.PERF, "error_rate");
    (SignalType.CANARY, "5xx_rate");
    (SignalType.CANARY, "p95_regression") ].

(** APPROVE < WARN < BLOCK. *)
Definition Decision_rank (d : Decision.t) : nat :=
  match d with
  | Decision.APPROVE => 0
  | Decision.WARN => 1
  | Decision.BLOCK => 2
  end.

(** ** Presentation: the [to_dict] methods and the evaluate endpoint *)

(** [.value] of the two string enums. *)
Definition Severity_value (s : Severity.t) : string :=
  match s with
  | Severity.BLOCK => "BLOCK"
  | Severity.WARN => "WARN"
  | Severity.INFO => "INFO"
  end.

Definition Decision_value (d : Decision.t) : string :=
  match d with
  | Decision.APPROVE => "APPROVE"
  | Decision.WARN => "WARN"
  | Decision.BLOCK => "BLOCK"
  end.

(** The dict of [RuleResult.to_dict], one field per key; also the fields of
    the [RuleResultResponse] built from it. *)
Module RuleResultDict.
Record t : Type := {
  rule : string;
  severity : string;
  observed : Q;
  limit : Q;
  message : Message;
  passed : bool
}.
End RuleResultDict.

Definition RuleResult_to_dict (self : RuleResult) : RuleResultDict.t :=
  {| RuleResultDict.rule := self.(rule);
     RuleResultDict.severity := Severity_value self.(severity);
     RuleResultDict.observed := self.(observed);
     RuleResultDict.limit := self.(limit);
     RuleResultDict.message := self.(message);
     RuleResultDict.passed := self.(passed) |}.

(** Rounding to the nearest integer, ties to even. *)
Definition round_half_even (x : Q) : Z :=
  let f := Qfloor x in
  match Qcompare (x - inject_Z f) (1 # 2) with
  | Lt => f
  | Gt => (f + 1)%Z
  | Eq => if Z.even f then f else (f + 1)%Z
  end.

(** [round(x, 2)] *)
Definition py_round2 (x : Q) : Q := inject_Z (round_half_even (x * 100)) / 100.

Module EvaluationResultDict.
Record t : Type := {
  decision : string;
  risk_score : Q;
  rationale : list RuleResultDict.t
}.
End EvaluationResultDict.

Definition EvaluationResult_to_dict (self : EvaluationResult)
  : EvaluationResultDict.t :=
  {| EvaluationResultDict.decision := Decision_value self.(decision);
     EvaluationResultDict.risk_score := py_round2 self.(risk_score);
     EvaluationResultDict.rationale :=
       RuleResult_to_dict <$>
         List.filter (λ r, negb r.(passed)) self.(rationale) |}.

(** *** [releaseguard/api/routes/releases.py]: [evaluate] *)

Inductive HTTPException : Type :=
  | HTTPError (status_code : Z) (detail : string).

(** The [Evaluation] row the endpoint adds to the session. *)
Module Evaluation.
Record t : Type := {
  release_id : string;
  risk_score : Q;
  decision : Decision.t;
  rationale_json : list RuleResultDict.t
}.
End Evaluation.

(** The body of the response. *)
Module EvaluationResponse.
Record t : Type := {
  decision : Decision.t;
  risk_score : Q;
  rationale : list RuleResultDict.t;
  report_url : string
}.
End EvaluationResponse.

Inductive Outcome : Type :=
  | Rejected (e : HTTPException)
  | Failed (e : exn)
  | Responded (persisted : Evaluation.t) (response : EvaluationResponse.t).

(** [release] is what the query for [release_id] found, as the list of its
    signals; [cfg] is the module-level [settings].  The outcome carries the
    row that is added and committed.  An exception of [evaluate_release] is
    not caught: it leaves the endpoint before anything is added, and the
    framework answers 500.  Here that is [Failed], with the one exception
    the rational model of [evaluate_release] can raise; the
    [OverflowError] or [ValueError] of an infinite or NaN total_tests takes
    the same way out in the source and is outside the model. *)
Definition evaluate (release_id : string) (release : option (list Signal))
    (cfg : Settings) : Outcome :=
  match release with
  | None => Rejected (HTTPError 404 "Release not found")
  | Some signals =>
      match signals with
      | [] =>
          Rejected (HTTPError 400
            "No signals found for release. Ingest signals before evaluating.")
      | _ :: _ =>
          match evaluate_release signals None None cfg with
          | Raise e => Failed e
          | Ok result =>
              let evaluation :=
                {| Evaluation.release_id := release_id;
                   Evaluation.risk_score := result.(risk_score);
                   Evaluation.decision := result.(decision);
                   Evaluation.rationale_json :=
                     RuleResult_to_dict <$> result.(rationale) |} in
              Responded evaluation
                {| EvaluationResponse.decision := result.(decision);
                   EvaluationResponse.risk_score :=
                     py_round2 result.(risk_score);
                   EvaluationResponse.rationale :=
                     RuleResult_to_dict <$>
                       List.filter (λ r, negb r.(passed)) result.(rationale);
                   EvaluationResponse.report_url :=
                     String.append "/releases/"
                       (String.append release_id "/report") |}
          end
      end
  end.

(** ** [releaseguard/collectors/junit_parser.py] *)

(** A [testcase] element: its two attributes, when present, and whether it
    has a [failure] and an [error] child. *)
Module TestCase.
Record t : Type := {
  classname : option string;
  name : option string;
  failure : bool;
  error : bool
}.
End TestCase.

(** A [testsuite] element: its attributes, when present, after [int] and
    [float] have converted them, and the [testcase] elements below it.
    Reading the file and the conversion of an attribute that is not a
    number are outside the model. *)
Module TestSuite.
Record t : Type := {
  tests : option Z;
  failures : option Z;
  skipped : option Z;
  errors : option Z;
  time : option Q;
  testcases : list TestCase.t
}.
End TestSuite.

Module TestSummary.
Record t : Type := {
  total : Z;
  passed : Z;
  failed : Z;
  skipped : Z;
  errors : Z;
  duration_seconds : Q;
  pass_rate : Q;
  failed_tests : list string
}.
End TestSummary.

(** [element.get(attribute, default)] *)
Definition get {A} (attribute : option A) (default : A) : A :=
  match attribute with
  | Some v => v
  | None => default
  end.

(** The inner loop: the names of the failed test cases of one suite. *)
Definition collect_failed (failed_tests : list string)
    (testcases : list TestCase.t) : list string :=
  fold_left
    (λ failed_tests testcase,
       if testcase.(TestCase.failure) || testcase.(TestCase.error) then
         let classname := get testcase.(TestCase.classname) "" in
         let name := get testcase.(TestCase.name) "" in
         failed_tests ++
           [if bool_decide (classname = "") then name
            else String.append classname (String.append "." name)]
       else failed_tests)
    testcases failed_tests.

(** The running counters of [parse_junit_xml]. *)
Record Counters : Type := {
  c_total : Z;
  c_failed : Z;
  c_skipped : Z;
  c_errors : Z;
  c_duration : Q;
  c_failed_tests : list string
}.

(** One turn of the loop over the test suites. *)
Definition count_suite (c : Counters) (testsuite : TestSuite.t) : Counters :=
  {| c_total := (c.(c_total) + get testsuite.(TestSuite.tests) 0)%Z;
     c_failed := (c.(c_failed) + get testsuite.(TestSuite.failures) 0)%Z;
     c_skipped := (c.(c_skipped) + get testsuite.(TestSuite.skipped) 0)%Z;
     c_errors := (c.(c_errors) + get testsuite.(TestSuite.errors) 0)%Z;
     c_duration := c.(c_duration) + get testsuite.(TestSuite.time) 0;
     c_failed_tests :=
       collect_failed c.(c_failed_tests) testsuite.(TestSuite.testcases) |}.

(** [testsuites] is the list the source iterates over: the [testsuite]
    elements of the file, or the root alone when it is one. *)
Definition parse_junit_xml (testsuites : list TestSuite.t) : TestSummary.t :=
  let c :=
    fold_left count_suite testsuites
      {| c_total := 0; c_failed := 0; c_skipped := 0; c_errors := 0;
         c_duration := 0.0; c_failed_tests := [] |} in
  let passed :=
    (c.(c_total) - c.(c_failed) - c.(c_skipped) - c.(c_errors))%Z in
  let pass_rate :=
    if (0 <? c.(c_total))%Z
    then inject_Z passed / inject_Z c.(c_total)
    else 0.0 in
  {| TestSummary.total := c.(c_total);
     TestSummary.passed := passed;
     TestSummary.failed := c.(c_failed);
     TestSummary.skipped := c.(c_skipped);
     TestSummary.errors := c.(c_errors);
     TestSummary.duration_seconds := c.(c_duration);
     TestSummary.pass_rate := pass_rate;
     TestSummary.failed_tests := c.(c_failed_tests) |}.

(** A signal payload for the API: the keys of the dict, which are the
    fields of [SignalCreate]; a key that is left out is [None]. *)
Module SignalPayload.
Record t : Type := {
  type : string;
  name : string;
  value_num : option Q;
  value_text : option string;
  metadata_json : option (list (string * Z))
}.
End SignalPayload.

Definition to_signals (summary : TestSummary.t) (test_type : string)
  : list SignalPayload.t :=
  [ {| SignalPayload.type := "TEST";
       SignalPayload.name := String.append test_type "_pass_rate";
       SignalPayload.value_num := Some summary.(TestSummary.pass_rate);
       SignalPayload.value_text := None;
       SignalPayload.metadata_json :=
         Some [("total", summary.(TestSummary.total));
               ("passed", summary.(TestSummary.passed));
               ("failed", summary.(TestSummary.failed));
               ("skipped", summary.(TestSummary.skipped))] |};
    {| SignalPayload.type := "TEST";
       SignalPayload.name := "total_tests";
       SignalPayload.value_num := Some (inject_Z summary.(TestSummary.total));
       SignalPayload.value_text := None;
       SignalPayload.metadata_json := None |};
    {| SignalPayload.type := "TEST";
       SignalPayload.name := String.append test_type "_duration_seconds";
       SignalPayload.value_num := Some summary.(TestSummary.duration_seconds);
       SignalPayload.value_text := None;
       SignalPayload.metadata_json := None |} ].

(** [SignalType(value)]: the member with that value, if any. *)
Definition SignalType_of_value (value : string) : option SignalType.t :=
  if bool_decide (value = "TEST") then Some SignalType.TEST
  else if bool_decide (value = "COVERAGE") then Some SignalType.COVERAGE
  else if bool_decide (value = "PERF") then Some SignalType.PERF
  else if bool_decide (value = "CANARY") then Some SignalType.CANARY
  else if bool_decide (value = "DEP") then Some SignalType.DEP
  else None.

(** The [Signal] that [create_signal] stores for a payload sent to a
    release that exists; [None] when the type is no member of [SignalType]
    and the request is refused before the function runs. *)
Definition create_signal (signal_data : SignalPayload.t) : option Signal :=
  signal_type ← SignalType_of_value signal_data.(SignalPayload.type);
  Some {| type := signal_type;
          name := signal_data.(SignalPayload.name);
          value_num := signal_data.(SignalPayload.value_num);
          value_text := signal_data.(SignalPayload.value_text) |}.

(** * Properties *)

(** ** Signal lookup *)

Section Lookup.

Implicit Types (signals pre post : list Signal) (s : Signal).
Implicit Types (ty : SignalType.t) (key : string).

Lemma get_signal_value_cons s signals ty key :
  get_signal_value (s :: signals) ty key =
    if matches ty key s then s.(value_num)
    else get_signal_value signals ty key.
Proof. reflexivity. Qed.

Lemma matches_iff ty key s :
  matches ty key s = true ↔ s.(type) = ty ∧ s.(name) = key.
Proof.
  unfold matches. rewrite andb_true_iff, !bool_decide_eq_true. tauto.
Qed.

Lemma get_signal_value_first pre s post ty key :
  matches ty key s = true →
  Forall (λ x, matches ty key x = false) pre →
  get_signal_value (pre ++ s :: post) ty key = s.(value_num).
Proof.
  intros Hs Hpre. induction Hpre as [| x pre Hx _ IH]; simpl.
  - fold (matches ty key s). now rewrite Hs.
  - fold (matches ty key x). now rewrite Hx.
Qed.

Lemma get_signal_value_none_iff signals ty key :
  get_signal_value signals ty key = None ↔
  (Forall (λ x, matches ty key x = false) signals ∨
   ∃ pre s post, signals = pre ++ s :: post ∧ matches ty key s = true ∧
     Forall (λ x, matches ty key x = false) pre ∧ s.(value_num) = None).
Proof.
  split.
  - induction signals as [| x rest IH]; intros H.
    + left. constructor.
    + rewrite get_signal_value_cons in H.
      destruct (matches ty key x) eqn:Hx.
      * right. exists [], x, rest. repeat split; auto.
      * destruct (IH H) as [Hall | (pre & s & post & -> & Hs & Hpre & Hv)].
        -- left. now constructor.
        -- right. exists (x :: pre), s, post. repeat split; auto.
  - intros [Hall | (pre & s & post & -> & Hs & Hpre & Hv)].
    + induction Hall as [| x rest Hx _ IH]; [reflexivity |].
      rewrite get_signal_value_cons. now rewrite Hx.
    + rewrite (get_signal_value_first pre s post ty key Hs Hpre). exact Hv.
Qed.

Lemma get_signal_value_without_same signals ty key :
  get_signal_value (without ty key signals) ty key = None.
Proof.
  induction signals as [| x rest IH]; [reflexivity |].
  unfold without in *. simpl.
  destruct (matches ty key x) eqn:Hx; simpl; [exact IH |].
  fold (matches ty key x). now rewrite Hx.
Qed.

Lemma matches_other ty key ty' key' s :
  (ty', key') ≠ (ty, key) → matches ty key s = true → matches ty' key' s = false.
Proof.
  intros Hne [Ht Hn]%matches_iff.
  destruct (matches ty' key' s) eqn:H'; [| reflexivity].
  apply matches_iff in H' as [Ht' Hn']. congruence.
Qed.

Lemma get_signal_value_without_other signals ty key ty' key' :
  (ty', key') ≠ (ty, key) →
  get_signal_value (without ty key signals) ty' key' =
  get_signal_value signals ty' key'.
Proof.
  intros Hne. induction signals as [| x rest IH]; [reflexivity |].
  unfold without in *. simpl. fold (matches ty' key' x).
  destruct (matches ty key x) eqn:Hx; simpl.
  - now rewrite (matches_other _ _ _ _ _ Hne Hx).
  - fold (matches ty' key' x). now rewrite IH.
Qed.

(** Dropping the signals of a key whose lookup is already absent changes no
    lookup at all. *)
Lemma get_signal_value_without signals ty key :
  get_signal_value signals ty key = None →
  ∀ ty' key',
    get_signal_value (without ty key signals) ty' key' =
    get_signal_value signals ty' key'.
Proof.
  intros Hnone ty' key'.
  destruct (decide ((ty', key') = (ty, key))) as [[= -> ->] | Hne].
  - now rewrite get_signal_value_without_same.
  - now apply get_signal_value_without_other.
Qed.

End Lookup.

(** ** The engine reads its signals through the lookup only *)

Section LookupOnly.

Variables signals signals' : list Signal.
Hypothesis same_lookups :
  ∀ ty key, get_signal_value signals' ty key = get_signal_value signals ty key.

Lemma evaluate_hard_gates_ext th :
  evaluate_hard_gates signals' th = evaluate_hard_gates signals th.
Proof. unfold evaluate_hard_gates. now rewrite !same_lookups. Qed.

Lemma evaluate_performance_gates_ext th :
  evaluate_performance_gates signals' th = evaluate_performance_gates signals th.
Proof. unfold evaluate_performance_gates. now rewrite !same_lookups. Qed.

Lemma evaluate_canary_gates_ext th :
  evaluate_canary_gates signals' th = evaluate_canary_gates signals th.
Proof. unfold evaluate_canary_gates. now rewrite !same_lookups. Qed.

Lemma all_gates_ext th : all_gates signals' th = all_gates signals th.
Proof.
  unfold all_gates.
  now rewrite evaluate_hard_gates_ext, evaluate_performance_gates_ext,
    evaluate_canary_gates_ext.
Qed.

Lemma compute_test_risk_ext :
  compute_test_risk signals' = compute_test_risk signals.
Proof. unfold compute_test_risk. now rewrite !same_lookups. Qed.

Lemma compute_coverage_risk_ext :
  compute_coverage_risk signals' = compute_coverage_risk signals.
Proof. unfold compute_coverage_risk. now rewrite !same_lookups. Qed.

Lemma compute_perf_risk_ext :
  compute_perf_risk signals' = compute_perf_risk signals.
Proof. unfold compute_perf_risk. now rewrite !same_lookups. Qed.

Lemma compute_canary_risk_ext :
  compute_canary_risk signals' = compute_canary_risk signals.
Proof. unfold compute_canary_risk. now rewrite !same_lookups. Qed.

Lemma compute_weighted_risk_score_ext w :
  compute_weighted_risk_score signals' w = compute_weighted_risk_score signals w.
Proof.
  unfold compute_weighted_risk_score.
  now rewrite compute_test_risk_ext, compute_coverage_risk_ext,
    compute_perf_risk_ext, compute_canary_risk_ext.
Qed.

Lemma evaluate_release_ext th w cfg :
  evaluate_release signals' th w cfg = evaluate_release signals th w cfg.
Proof.
  unfold evaluate_release.
  now rewrite evaluate_hard_gates_ext, evaluate_performance_gates_ext,
    evaluate_canary_gates_ext, compute_weighted_risk_score_ext.
Qed.

End LookupOnly.

(** ** The gate functions run the catalog *)

Section Monad.

Context {A B : Type}.

Lemma bind_congr (m m' : result A) (k k' : A → result B) :
  m = m' → (∀ a, k a = k' a) → (m ≫= k) = (m' ≫= k').
Proof. intros -> Hk. destruct m' as [a | e]; [apply Hk | reflexivity]. Qed.

Lemma bind_Ok_inv (m : result A) (k : A → result B) (b : B) :
  (m ≫= k) = Ok b → ∃ a, m = Ok a ∧ k a = Ok b.
Proof. destruct m as [a | e]; [eauto | discriminate]. Qed.

End Monad.

Lemma bind_mret_r {A} (m : result A) : (m ≫= mret) = m.
Proof. now destruct m. Qed.

Lemma bind_assoc {A B C} (m : result A) (k : A → result B) (h : B → result C) :
  ((m ≫= k) ≫= h) = (m ≫= λ a, k a ≫= h).
Proof. now destruct m. Qed.

Lemma is_Ok_true {A} (m : result A) : is_Ok m = true ↔ ∃ a, m = Ok a.
Proof.
  destruct m as [a | e]; simpl; split; intros H; eauto; try discriminate.
  destruct H as [a H]. discriminate.
Qed.

(** Closes the goal that a branch written out in a gate function is the
    step of its catalog row. *)
Ltac branch_is_step :=
  unfold gate_step, getitem, check_result, holds, py_ge, py_le; simpl;
  repeat match goal with
    | |- context [get_signal_value ?s ?ty ?k] =>
        destruct (get_signal_value s ty k); simpl; try reflexivity
    | |- context [@lookup _ _ (gmap string Q) _ ?k ?t] =>
        destruct (@lookup _ _ (gmap string Q) _ k t); simpl; try reflexivity
    | |- context [Qle_bool ?a ?b] =>
        destruct (Qle_bool a b); simpl; try reflexivity
    end.

Lemma evaluate_hard_gates_steps signals th :
  evaluate_hard_gates signals th =
  gate_steps signals (py_or th DEFAULT_THRESHOLDS) (take 6 catalog) [].
Proof.
  unfold evaluate_hard_gates. simpl take. cbn [gate_steps]. cbv zeta.
  generalize (py_or th DEFAULT_THRESHOLDS) as t. intros t.
  repeat (apply bind_congr; [branch_is_step | intros ?]).
  reflexivity.
Qed.

Lemma evaluate_performance_gates_steps signals th :
  evaluate_performance_gates signals th =
  gate_steps signals (py_or th DEFAULT_THRESHOLDS) (take 2 (drop 6 catalog)) [].
Proof.
  unfold evaluate_performance_gates. simpl take. cbn [gate_steps]. cbv zeta.
  generalize (py_or th DEFAULT_THRESHOLDS) as t. intros t.
  repeat (apply bind_congr; [branch_is_step | intros ?]).
  reflexivity.
Qed.

Lemma evaluate_canary_gates_steps signals th :
  evaluate_canary_gates signals th =
  gate_steps signals (py_or th DEFAULT_THRESHOLDS) (drop 8 catalog) [].
Proof.
  unfold evaluate_canary_gates. simpl drop. cbn [gate_steps]. cbv zeta.
  generalize (py_or th DEFAULT_THRESHOLDS) as t. intros t.
  repeat (apply bind_congr; [branch_is_step | intros ?]).
  reflexivity.
Qed.

Section Catalog.

Variable signals : list Signal.
Variable t : gmap string Q.

Implicit Types (c : Check) (checks : list Check) (results : list RuleResult).

Lemma gate_steps_run checks results :
  gate_steps signals t checks results =
  (run_catalog checks signals t ≫= λ emitted, mret (results ++ emitted)).
Proof.
  revert results. induction checks as [| c rest IH]; intros results; simpl.
  - now rewrite app_nil_r.
  - unfold gate_step.
    destruct (get_signal_value signals (check_type c) (check_signal c)) as [v |];
      simpl; [| apply IH].
    destruct (getitem t (limit_key c)) as [lim | e]; simpl; [| reflexivity].
    rewrite IH, bind_assoc. apply bind_congr; [reflexivity |].
    intros emitted. simpl. now rewrite <- app_assoc.
Qed.

Lemma run_catalog_app checks checks' :
  run_catalog (checks ++ checks') signals t =
  (run_catalog checks signals t ≫= λ emitted,
   run_catalog checks' signals t ≫= λ emitted',
   mret (emitted ++ emitted')).
Proof.
  induction checks as [| c rest IH]; simpl.
  - now rewrite bind_mret_r.
  - destruct (get_signal_value signals (check_type c) (check_signal c)) as [v |];
      simpl; [| apply IH].
    destruct (getitem t (limit_key c)) as [lim | e]; simpl; [| reflexivity].
    rewrite IH, !bind_assoc. apply bind_congr; [reflexivity |].
    intros emitted. simpl. rewrite bind_assoc. now apply bind_congr.
Qed.

(** The catalog runs without error exactly when every key it reads is
    there: the limit keys of the checks whose signal is present. *)
Lemma run_catalog_Ok_iff checks :
  is_Ok (run_catalog checks signals t) = true ↔
  ∀ c, c ∈ checks →
    is_Some (get_signal_value signals c.(check_type) c.(check_signal)) →
    is_Some (t !! c.(limit_key)).
Proof.
  induction checks as [| c rest IH]; simpl.
  - split; [intros _ c Hc; inversion Hc | reflexivity].
  - destruct (get_signal_value signals (check_type c) (check_signal c))
      as [v |] eqn:Hv; simpl.
    + unfold getitem. destruct (t !! limit_key c) as [lim |] eqn:Hlim; simpl.
      * destruct (run_catalog rest signals t) as [emitted | e]; simpl in *.
        -- split; [| reflexivity]. intros _ c' Hc' Hpresent.
           apply elem_of_cons in Hc' as [-> | Hc']; [now rewrite Hlim |].
           now apply IH.
        -- split; [discriminate |]. intros H. apply IH.
           intros c' Hc'. apply H. now right.
      * split; [discriminate |]. intros H.
        destruct (H c) as [lim Hsome]; [now left | now rewrite Hv |].
        congruence.
    + rewrite IH. split.
      * intros H c' Hc' Hpresent.
        apply elem_of_cons in Hc' as [-> | Hc']; [| now apply H].
        rewrite Hv in Hpresent. now destruct Hpresent.
      * intros H c' Hc'. apply H. now right.
Qed.

(** A key error names a missing limit key of a check whose signal is
    present. *)
Lemma run_catalog_Raise checks k :
  run_catalog checks signals t = Raise (KeyError k) →
  ∃ c, c ∈ checks ∧ c.(limit_key) = k ∧
    is_Some (get_signal_value signals c.(check_type) c.(check_signal)) ∧
    t !! k = None.
Proof.
  induction checks as [| c rest IH]; simpl; [discriminate |].
  destruct (get_signal_value signals (check_type c) (check_signal c))
    as [v |] eqn:Hv; simpl.
  - unfold getitem. destruct (t !! limit_key c) as [lim |] eqn:Hlim; simpl.
    + destruct (run_catalog rest signals t) as [emitted | e]; simpl;
        [discriminate |].
      intros [= ->]. destruct (IH eq_refl) as (c' & Hc' & H).
      exists c'. split; [now right | exact H].
    + intros [= <-]. exists c. rewrite Hv. repeat split; eauto. now left.
  - intros H. destruct (IH H) as (c' & Hc' & H').
    exists c'. split; [now right | exact H'].
Qed.

(** Every emitted result is the result of a check of the list, on the
    looked-up value and on the limit of [t]. *)
Lemma run_catalog_emitted checks results :
  run_catalog checks signals t = Ok results →
  ∀ r, r ∈ results →
  ∃ c v lim, c ∈ checks ∧
    get_signal_value signals c.(check_type) c.(check_signal) = Some v ∧
    t !! c.(limit_key) = Some lim ∧ r = check_result c v lim.
Proof.
  revert results. induction checks as [| c rest IH]; simpl; intros results.
  - intros [= <-] r Hr. inversion Hr.
  - destruct (get_signal_value signals (check_type c) (check_signal c))
      as [v |] eqn:Hv; simpl.
    + unfold getitem. destruct (t !! limit_key c) as [lim |] eqn:Hlim; simpl;
        [| discriminate].
      destruct (run_catalog rest signals t) as [emitted | e]; simpl;
        [| discriminate].
      intros [= <-] r Hr. apply elem_of_cons in Hr as [-> | Hr].
      * exists c, v, lim. repeat split; auto. now left.
      * destruct (IH emitted eq_refl r Hr) as (c' & v' & lim' & Hc' & H).
        exists c', v', lim'. split; [now right | exact H].
    + intros H r Hr. destruct (IH results H r Hr) as (c' & v' & lim' & Hc' & H').
      exists c', v', lim'. split; [now right | exact H'].
Qed.

(** With distinct rule ids, a check has no result when its signal is absent
    and exactly one when it is present. *)
Lemma run_catalog_results_of checks results c :
  NoDup (check_rule <$> checks) →
  run_catalog checks signals t = Ok results →
  c ∈ checks →
  match get_signal_value signals c.(check_type) c.(check_signal) with
  | None => results_of c results = []
  | Some v => ∃ lim,
      t !! c.(limit_key) = Some lim ∧
      results_of c results = [check_result c v lim]
  end.
Proof.
  assert (Hforeign : ∀ checks results,
    run_catalog checks signals t = Ok results →
    c.(check_rule) ∉ check_rule <$> checks → results_of c results = []).
  { clear checks results. intros checks results Hrun Hnotin.
    unfold results_of. apply elem_of_nil_inv.
    intros r [Hrule Hr]%list_elem_of_filter.
    destruct (run_catalog_emitted checks results Hrun r Hr)
      as (c' & v & lim & Hc' & _ & _ & ->).
    apply Hnotin. simpl in Hrule. rewrite <- Hrule.
    now apply list_elem_of_fmap_2. }
  revert results. induction checks as [| c0 rest IH]; intros results Hnd Hrun Hc.
  - inversion Hc.
  - simpl in Hnd. apply NoDup_cons in Hnd as [Hfresh Hnd].
    simpl in Hrun.
    apply elem_of_cons in Hc as [<- | Hc].
    + destruct (get_signal_value signals (check_type c) (check_signal c))
        as [v |] eqn:Hv; simpl in Hrun.
      * unfold getitem in Hrun.
        destruct (t !! limit_key c) as [lim |] eqn:Hlim; simpl in Hrun;
          [| discriminate].
        destruct (run_catalog rest signals t) as [emitted | e] eqn:Hrest;
          simpl in Hrun; [| discriminate].
        injection Hrun as <-. exists lim. split; [reflexivity |].
        unfold results_of. rewrite filter_cons_True by reflexivity.
        f_equal. now apply (Hforeign rest).
      * now apply (Hforeign rest).
    + assert (Hne : check_rule c0 ≠ check_rule c).
      { intros Heq. apply Hfresh. rewrite Heq. now apply list_elem_of_fmap_2. }
      destruct (get_signal_value signals (check_type c0) (check_signal c0))
        as [v0 |] eqn:Hv0; simpl in Hrun.
      * unfold getitem in Hrun.
        destruct (t !! limit_key c0) as [lim0 |] eqn:Hlim0; simpl in Hrun;
          [| discriminate].
        destruct (run_catalog rest signals t) as [emitted | e] eqn:Hrest;
          simpl in Hrun; [| discriminate].
        injection Hrun as <-. specialize (IH emitted Hnd eq_refl Hc).
        unfold results_of in *. now rewrite filter_cons_False.
      * now apply IH.
Qed.

End Catalog.

(** The nine hand-written branches are the catalog, run in order. *)
Lemma all_gates_catalog signals th :
  all_gates signals th =
  run_catalog catalog signals (py_or th DEFAULT_THRESHOLDS).
Proof.
  unfold all_gates.
  rewrite evaluate_hard_gates_steps, evaluate_performance_gates_steps,
    evaluate_canary_gates_steps, !gate_steps_run.
  change catalog
    with (take 6 catalog ++ take 2 (drop 6 catalog) ++ drop 8 catalog).
  rewrite !run_catalog_app.
  set (t := py_or th DEFAULT_THRESHOLDS).
  destruct (run_catalog (take 6 _) signals t) as [hard | e]; [| reflexivity].
  destruct (run_catalog (take 2 _) signals t) as [perf | e]; [| reflexivity].
  destruct (run_catalog (drop 8 _) signals t) as [canary | e]; reflexivity.
Qed.

Lemma all_gates_Ok_inv signals th results :
  all_gates signals th = Ok results →
  ∃ hard perf canary,
    evaluate_hard_gates signals th = Ok hard ∧
    evaluate_performance_gates signals th = Ok perf ∧
    evaluate_canary_gates signals th = Ok canary ∧
    results = hard ++ perf ++ canary.
Proof.
  unfold all_gates. intros H.
  apply bind_Ok_inv in H as (hard & Hhard & H).
  apply bind_Ok_inv in H as (perf & Hperf & H).
  apply bind_Ok_inv in H as (canary & Hcanary & [= <-]).
  now exists hard, perf, canary.
Qed.

Lemma catalog_rules_distinct : NoDup (check_rule <$> catalog).
Proof. apply (bool_decide_unpack _). vm_compute. exact I. Qed.

Lemma catalog_limit_keys : limit_key <$> catalog = THRESHOLD_KEYS.
Proof. reflexivity. Qed.

(** ** Configuration mappings *)

Lemma dict_truthy_false d : dict_truthy d = false ↔ d = ∅.
Proof.
  unfold dict_truthy. rewrite <- map_to_list_empty_iff.
  destruct (map_to_list d); split; congruence.
Qed.

Lemma dict_truthy_true d : dict_truthy d = true ↔ d ≠ ∅.
Proof.
  rewrite <- dict_truthy_false. destruct (dict_truthy d); split; congruence.
Qed.

Lemma py_or_empty default : py_or (Some ∅) default = default.
Proof. reflexivity. Qed.

Lemma py_or_Some d default : d ≠ ∅ → py_or (Some d) default = d.
Proof. intros H%dict_truthy_true. simpl. now rewrite H. Qed.

Lemma DEFAULT_THRESHOLDS_complete : complete THRESHOLD_KEYS DEFAULT_THRESHOLDS.
Proof.
  intros k Hk. unfold THRESHOLD_KEYS in Hk.
  repeat (apply elem_of_cons in Hk as [-> | Hk]; [vm_compute; eauto |]).
  inversion Hk.
Qed.

Lemma DEFAULT_WEIGHTS_complete : complete WEIGHT_KEYS DEFAULT_WEIGHTS.
Proof.
  intros k Hk. unfold WEIGHT_KEYS in Hk.
  repeat (apply elem_of_cons in Hk as [-> | Hk]; [vm_compute; eauto |]).
  inversion Hk.
Qed.

Lemma py_or_complete keys supplied default :
  complete_override keys supplied → complete keys default →
  complete keys (py_or supplied default).
Proof.
  intros Hs Hd. destruct supplied as [d |]; simpl; [| exact Hd].
  destruct (dict_truthy d); [now apply Hs | exact Hd].
Qed.

Lemma all_gates_complete signals th :
  complete_override THRESHOLD_KEYS th → ∃ results, all_gates signals th = Ok results.
Proof.
  intros Hth. apply is_Ok_true. rewrite all_gates_catalog.
  apply run_catalog_Ok_iff. intros c Hc _.
  apply (py_or_complete _ _ _ Hth DEFAULT_THRESHOLDS_complete).
  rewrite <- catalog_limit_keys. now apply list_elem_of_fmap_2.
Qed.

(** ** Hard gates *)

(** C5.  With every threshold key configured, a catalog check whose signal
    the lookup reports absent emits no RuleResult, and a check whose signal
    is present emits exactly one: it records the observed value and the
    configured limit, passes when the comparison of the catalog holds, and
    has severity INFO when it passes and the on-fail severity of the
    catalog when it fails. *)
Theorem C5_one_result_per_present_check signals thresholds :
  complete_override THRESHOLD_KEYS thresholds →
  ∃ hard perf canary,
    evaluate_hard_gates signals thresholds = Ok hard ∧
    evaluate_performance_gates signals thresholds = Ok perf ∧
    evaluate_canary_gates signals thresholds = Ok canary ∧
    ∀ c, c ∈ catalog →
      match get_signal_value signals c.(check_type) c.(check_signal) with
      | None => results_of c (hard ++ perf ++ canary) = []
      | Some v => ∃ lim r,
          py_or thresholds DEFAULT_THRESHOLDS !! c.(limit_key) = Some lim ∧
          results_of c (hard ++ perf ++ canary) = [r] ∧
          r.(observed) = v ∧ r.(limit) = lim ∧
          r.(passed) = holds c.(comparator) v lim ∧
          r.(severity) = if r.(passed) then Severity.INFO else c.(on_fail)
      end.
Proof.
  intros Hth.
  destruct (all_gates_complete signals thresholds Hth) as [results Hrun].
  destruct (all_gates_Ok_inv _ _ _ Hrun)
    as (hard & perf & canary & Hhard & Hperf & Hcanary & ->).
  exists hard, perf, canary. repeat split; try assumption.
  intros c Hc. rewrite all_gates_catalog in Hrun.
  pose proof (run_catalog_results_of signals _ catalog _ c
                catalog_rules_distinct Hrun Hc) as H.
  destruct (get_signal_value signals (check_type c) (check_signal c)) as [v |];
    [| exact H].
  destruct H as (lim & Hlim & Hres).
  exists lim, (check_result c v lim). now repeat split.
Qed.

(** On the signals of the good release of the tests, under the default
    thresholds: the line coverage check has one result, which passes. *)
Lemma C5_one_result_per_present_check_witness :
  ∃ hard perf canary r,
    evaluate_hard_gates
      [make_signal SignalType.TEST "e2e_pass_rate" 1.0;
       make_signal SignalType.COVERAGE "line_coverage" 0.90] None = Ok hard ∧
    filter (λ r, r.(rule) = "LINE_COVERAGE") (hard ++ perf ++ canary) = [r] ∧
    r.(severity) = Severity.INFO.
Proof.
  destruct (C5_one_result_per_present_check
              [make_signal SignalType.TEST "e2e_pass_rate" 1.0;
               make_signal SignalType.COVERAGE "line_coverage" 0.90] None)
    as (hard & perf & canary & Hhard & _ & _ & H).
  - intros d Hd. discriminate Hd.
  - assert (Hin : {| check_rule := "LINE_COVERAGE";
                     check_type := SignalType.COVERAGE;
                     check_signal := "line_coverage"; comparator := AtLeast;
                     limit_key := "line_coverage_min";
                     on_fail := Severity.WARN;
                     check_head := "Line coverage";
                     check_tail := "threshold" |} ∈ catalog).
    { unfold catalog. do 4 apply list_elem_of_further. apply list_elem_of_here. }
    destruct (H _ Hin) as (lim & r & Hlim & Hres & _ & Hl & Hp & Hs).
    exists hard, perf, canary, r. split; [exact Hhard |]. split; [exact Hres |].
    rewrite Hs, Hp. injection Hlim as <-. reflexivity.
Defined.

(** ** The first match decides the lookup *)

(** C10.  [get_signal_value] returns the [value_num] of the first signal of
    the sequence whose type and name match, also when that field is [None].
    When it is [None] the metric counts as absent whatever follows it: no
    check of the catalog on that key has a result, and the gates, the four
    category risks and the whole evaluation are those of the sequence with
    every signal of that key dropped, even if a later signal of the key
    carries a number. *)
Theorem C10_first_match_decides pre s post ty key :
  matches ty key s = true →
  Forall (λ x, matches ty key x = false) pre →
  let signals := pre ++ s :: post in
  get_signal_value signals ty key = s.(value_num) ∧
  (s.(value_num) = None →
     get_signal_value signals ty key = None ∧
     (∀ c th results,
        c ∈ catalog → c.(check_type) = ty → c.(check_signal) = key →
        all_gates signals th = Ok results → results_of c results = []) ∧
     (∀ th, all_gates signals th = all_gates (without ty key signals) th) ∧
     compute_test_risk signals = compute_test_risk (without ty key signals) ∧
     compute_coverage_risk signals
       = compute_coverage_risk (without ty key signals) ∧
     compute_perf_risk signals = compute_perf_risk (without ty key signals) ∧
     compute_canary_risk signals
       = compute_canary_risk (without ty key signals) ∧
     (∀ th w cfg,
        evaluate_release signals th w cfg
        = evaluate_release (without ty key signals) th w cfg)).
Proof.
  intros Hs Hpre signals.
  assert (Hfirst : get_signal_value signals ty key = s.(value_num))
    by now apply get_signal_value_first.
  split; [exact Hfirst |].
  intros Hnone. rewrite Hnone in Hfirst.
  pose proof (get_signal_value_without signals ty key Hfirst) as Hsame.
  split; [exact Hfirst |].
  split.
  { intros c th results Hc <- <- Hrun. rewrite all_gates_catalog in Hrun.
    pose proof (run_catalog_results_of signals _ catalog _ c
                  catalog_rules_distinct Hrun Hc) as H.
    now rewrite Hfirst in H. }
  split; [intros th; symmetry; now apply all_gates_ext |].
  split; [symmetry; now apply compute_test_risk_ext |].
  split; [symmetry; now apply compute_coverage_risk_ext |].
  split; [symmetry; now apply compute_perf_risk_ext |].
  split; [symmetry; now apply compute_canary_risk_ext |].
  intros th w cfg. symmetry. now apply evaluate_release_ext.
Qed.

(** A text-only [e2e_pass_rate] signal in front of a numeric one: the
    lookup is absent and the failing 50% never reaches a gate. *)
Lemma C10_first_match_decides_witness :
  let s := {| type := SignalType.TEST; name := "e2e_pass_rate";
              value_num := None; value_text := Some "n/a" |} in
  let signals := [] ++ s :: [make_signal SignalType.TEST "e2e_pass_rate" 0.5] in
  get_signal_value signals SignalType.TEST "e2e_pass_rate" = None ∧
  all_gates signals None = Ok [].
Proof.
  intros s signals.
  destruct (C10_first_match_decides [] s
              [make_signal SignalType.TEST "e2e_pass_rate" 0.5]
              SignalType.TEST "e2e_pass_rate" eq_refl (List.Forall_nil _))
    as [_ H].
  destruct (H eq_refl) as (Hnone & _ & Hgates & _).
  split; [exact Hnone |].
  exact (eq_trans (Hgates None) eq_refl).
Defined.

(** ** The weighted score *)

Section Score.

Variable signals : list Signal.
Variable weights : option (gmap string Q).

Local Abbreviation w := (py_or weights DEFAULT_WEIGHTS).

Lemma weighted_score_Ok score :
  compute_weighted_risk_score signals weights = Ok score →
  scores_as signals w (Ok score).
Proof.
  unfold compute_weighted_risk_score, getitem, scores_as.
  destruct (w !! "tests") as [w_tests |]; simpl; [| discriminate].
  destruct (w !! "coverage") as [w_coverage |]; simpl; [| discriminate].
  destruct (w !! "perf") as [w_perf |]; simpl; [| discriminate].
  destruct (w !! "canary") as [w_canary |]; simpl; [| discriminate].
  intros [= <-]. exists w_tests, w_coverage, w_perf, w_canary. eexists.
  repeat split; try reflexivity.
  unfold weighted_formula. ring.
Qed.

Lemma weighted_score_Ok_iff :
  is_Ok (compute_weighted_risk_score signals weights) = true ↔
  complete SCORED_WEIGHT_KEYS w.
Proof.
  unfold compute_weighted_risk_score, getitem, complete, SCORED_WEIGHT_KEYS.
  split.
  - intros H k Hk.
    destruct (w !! "tests") eqn:H1; simpl in H; [| discriminate].
    destruct (w !! "coverage") eqn:H2; simpl in H; [| discriminate].
    destruct (w !! "perf") eqn:H3; simpl in H; [| discriminate].
    destruct (w !! "canary") eqn:H4; simpl in H; [| discriminate].
    repeat (apply elem_of_cons in Hk as [-> | Hk];
            [rewrite ?H1, ?H2, ?H3, ?H4; eauto |]).
    inversion Hk.
  - intros H.
    destruct (H "tests") as [? ->]; [set_solver |].
    destruct (H "coverage") as [? ->]; [set_solver |].
    destruct (H "perf") as [? ->]; [set_solver |].
    destruct (H "canary") as [? ->]; [set_solver |].
    reflexivity.
Qed.

Lemma weighted_score_Raise k :
  compute_weighted_risk_score signals weights = Raise (KeyError k) →
  k ∈ SCORED_WEIGHT_KEYS ∧ w !! k = None.
Proof.
  unfold compute_weighted_risk_score, getitem, SCORED_WEIGHT_KEYS.
  destruct (w !! "tests") eqn:H1; simpl;
    [| intros [= <-]; split; [set_solver | exact H1]].
  destruct (w !! "coverage") eqn:H2; simpl;
    [| intros [= <-]; split; [set_solver | exact H2]].
  destruct (w !! "perf") eqn:H3; simpl;
    [| intros [= <-]; split; [set_solver | exact H3]].
  destruct (w !! "canary") eqn:H4; simpl;
    [| intros [= <-]; split; [set_solver | exact H4]].
  discriminate.
Qed.

End Score.

Lemma complete_scored_of_all d :
  complete WEIGHT_KEYS d → complete SCORED_WEIGHT_KEYS d.
Proof.
  intros H k Hk. apply H. unfold SCORED_WEIGHT_KEYS, WEIGHT_KEYS in *.
  rewrite !elem_of_cons in *. tauto.
Qed.

Lemma weighted_score_complete signals weights :
  complete_override WEIGHT_KEYS weights →
  ∃ score, compute_weighted_risk_score signals weights = Ok score.
Proof.
  intros Hw. apply is_Ok_true, weighted_score_Ok_iff, complete_scored_of_all.
  exact (py_or_complete _ _ _ Hw DEFAULT_WEIGHTS_complete).
Qed.

(** ** The decision *)

Lemma any_failed_Exists sev results :
  any_failed sev results = true ↔ Exists (failed_with sev) results.
Proof.
  unfold any_failed, failed_with.
  rewrite existsb_exists, Exists_exists. split.
  - intros (r & Hin & [Hsev Hp]%andb_true_iff). exists r.
    apply bool_decide_eq_true in Hsev. apply negb_true_iff in Hp.
    split; [now apply list_elem_of_In | auto].
  - intros (r & Hin & Hsev & Hp). exists r.
    split; [now apply list_elem_of_In |].
    apply andb_true_iff. split; [now apply bool_decide_eq_true |].
    now apply negb_true_iff.
Qed.

Lemma py_ge_true a b : py_ge a b = true ↔ b <= a.
Proof. apply Qle_bool_iff. Qed.

(** The two overlapping conditionals of [evaluate_release] amount to the
    four tiers. *)
Lemma conditionals_are_policy results score cfg :
  (let has_block := any_failed Severity.BLOCK results in
   let has_warn := any_failed Severity.WARN results in
   let decision :=
     if has_block then Decision.BLOCK
     else if has_warn || py_ge score cfg.(warn_threshold) then Decision.WARN
     else if py_ge score cfg.(approve_threshold) then Decision.WARN
     else Decision.APPROVE in
   if py_ge score cfg.(warn_threshold) then Decision.BLOCK else decision)
  = decision_policy results score cfg.
Proof.
  cbv zeta. unfold decision_policy.
  destruct (decide (warn_threshold cfg <= score)) as [Hw | Hw].
  - apply py_ge_true in Hw. now rewrite Hw.
  - destruct (py_ge score (warn_threshold cfg)) eqn:Ew;
      [now apply py_ge_true in Ew |].
    destruct (decide (Exists (failed_with Severity.BLOCK) results)) as [Hb | Hb].
    + apply any_failed_Exists in Hb. now rewrite Hb.
    + destruct (any_failed Severity.BLOCK results) eqn:Eb;
        [now apply any_failed_Exists in Eb |].
      rewrite orb_false_r.
      destruct (any_failed Severity.WARN results) eqn:Ewn.
      * apply any_failed_Exists in Ewn. now rewrite decide_True by auto.
      * destruct (py_ge score (approve_threshold cfg)) eqn:Ea.
        -- apply py_ge_true in Ea. now rewrite decide_True by auto.
        -- rewrite decide_False; [reflexivity |].
           intros [Hx | Hx].
           ++ apply any_failed_Exists in Hx. congruence.
           ++ apply py_ge_true in Hx. congruence.
Qed.

(** The policy, tier by tier. *)
Lemma decision_policy_tiers results score cfg :
  let block_failed := Exists (failed_with Severity.BLOCK) results in
  let warn_failed := Exists (failed_with Severity.WARN) results in
  (cfg.(warn_threshold) <= score →
   decision_policy results score cfg = Decision.BLOCK) ∧
  (¬ cfg.(warn_threshold) <= score → block_failed →
   decision_policy results score cfg = Decision.BLOCK) ∧
  (¬ cfg.(warn_threshold) <= score → ¬ block_failed →
   warn_failed ∨ cfg.(approve_threshold) <= score →
   decision_policy results score cfg = Decision.WARN) ∧
  (¬ cfg.(warn_threshold) <= score → ¬ block_failed →
   ¬ warn_failed → ¬ cfg.(approve_threshold) <= score →
   decision_policy results score cfg = Decision.APPROVE).
Proof.
  cbv zeta. unfold decision_policy.
  repeat split; intros; repeat case_decide; tauto.
Qed.

Lemma evaluate_release_policy signals th weights cfg :
  evaluate_release signals th weights cfg =
  (all_gates signals th ≫= λ results,
   compute_weighted_risk_score signals weights ≫= λ score,
   mret {| decision := decision_policy results score cfg;
           risk_score := score;
           rationale := results |}).
Proof.
  unfold evaluate_release, all_gates.
  destruct (evaluate_hard_gates signals th) as [hard | e]; [| reflexivity].
  destruct (evaluate_performance_gates signals th) as [perf | e];
    [| reflexivity].
  destruct (evaluate_canary_gates signals th) as [canary | e]; [| reflexivity].
  simpl.
  destruct (compute_weighted_risk_score signals weights) as [score | e];
    [| reflexivity].
  simpl. rewrite <- !app_assoc.
  rewrite <- (conditionals_are_policy (hard ++ perf ++ canary) score cfg).
  reflexivity.
Qed.

(** C1.  For every signal sequence, thresholds, weights and settings,
    whenever [evaluate_release] returns, its rationale is the gates'
    results, its risk score the weighted score, and its decision that of
    the four tiers, first match wins: BLOCK when the score reaches the warn
    threshold; else BLOCK when a BLOCK-severity result failed; else WARN
    when a WARN-severity result failed or the score reaches the approve
    threshold; else APPROVE.  With complete (or defaulted) thresholds and
    weights it does return. *)
Theorem C1_decision_precedence signals thresholds weights cfg :
  (∀ r, evaluate_release signals thresholds weights cfg = Ok r →
     all_gates signals thresholds = Ok r.(rationale) ∧
     compute_weighted_risk_score signals weights = Ok r.(risk_score) ∧
     r.(decision) = decision_policy r.(rationale) r.(risk_score) cfg) ∧
  (complete_override THRESHOLD_KEYS thresholds →
   complete_override WEIGHT_KEYS weights →
   ∃ r, evaluate_release signals thresholds weights cfg = Ok r).
Proof.
  rewrite evaluate_release_policy. split.
  - intros r Hr.
    apply bind_Ok_inv in Hr as (results & Hgates & Hr).
    apply bind_Ok_inv in Hr as (score & Hscore & [= <-]).
    now repeat split.
  - intros Hth Hw.
    destruct (all_gates_complete signals thresholds Hth) as [results ->].
    destruct (weighted_score_complete signals weights Hw) as [score ->].
    simpl. eauto.
Qed.

(** The coverage-drop release of the tests, all defaults: one WARN-severity
    failure, a score of 3, hence WARN by the third tier. *)
Lemma C1_decision_precedence_witness :
  ∃ r,
    evaluate_release [make_signal SignalType.COVERAGE "coverage_drop" 0.03]
      None None settings = Ok r ∧
    r.(decision) = decision_policy r.(rationale) r.(risk_score) settings ∧
    r.(decision) = Decision.WARN.
Proof.
  destruct (C1_decision_precedence
              [make_signal SignalType.COVERAGE "coverage_drop" 0.03]
              None None settings) as [Hpolicy Hreturns].
  destruct Hreturns as [r Hr].
  - intros d Hd. discriminate Hd.
  - intros d Hd. discriminate Hd.
  - exists r. split; [exact Hr |].
    destruct (Hpolicy r Hr) as (_ & _ & Hd). split; [exact Hd |].
    vm_compute in Hr. injection Hr as <-. reflexivity.
Defined.

(** ** The empty signal sequence *)

Lemma all_gates_nil th : all_gates [] th = Ok [].
Proof. reflexivity. Qed.

(** C8.  On the empty signal sequence, with any thresholds, complete or
    defaulted weights and the default decision thresholds,
    [evaluate_release] raises nothing and returns decision APPROVE, a risk
    score equal to 0 and an empty rationale. *)
Theorem C8_empty_signals thresholds weights :
  complete_override WEIGHT_KEYS weights →
  ∃ r, evaluate_release [] thresholds weights settings = Ok r ∧
    r.(decision) = Decision.APPROVE ∧
    r.(risk_score) == 0 ∧
    r.(rationale) = [].
Proof.
  intros Hw.
  destruct (weighted_score_complete [] weights Hw) as [score Hscore].
  rewrite evaluate_release_policy, all_gates_nil, Hscore. simpl.
  eexists. split; [reflexivity |]. simpl.
  apply weighted_score_Ok in Hscore
    as (w_tests & w_coverage & w_perf & w_canary & s & _ & _ & _ & _ & [= <-] & Hs).
  assert (Hzero : score == 0).
  { rewrite Hs. unfold weighted_formula.
    change (compute_test_risk []) with 0.0.
    change (compute_coverage_risk []) with 0.0.
    change (compute_perf_risk []) with 0.0.
    change (compute_canary_risk []) with 0.0.
    ring. }
  repeat split; [| exact Hzero].
  unfold decision_policy, settings. simpl.
  rewrite decide_False by (rewrite Hzero; apply Qlt_not_le; reflexivity).
  rewrite decide_False; [reflexivity |].
  intros [H | H]; [inversion H |].
  revert H. rewrite Hzero. apply Qlt_not_le. reflexivity.
Qed.

(** All defaults. *)
Lemma C8_empty_signals_witness :
  ∃ r, evaluate_release [] None None settings = Ok r ∧
    r.(decision) = Decision.APPROVE ∧ r.(risk_score) == 0 ∧ r.(rationale) = [].
Proof.
  apply (C8_empty_signals None None). intros d Hd. discriminate Hd.
Defined.

(** ** The weights *)

(** C7.  With complete (or defaulted) weights, the score is
    100 x (tests x test risk + coverage x coverage risk + perf x perf risk
    + canary x canary risk), the risks being the four category functions
    on the same signals; the [deps] weight has no part in it: setting it
    to any value, or removing it, leaves the outcome as it is. *)
Theorem C7_weighted_score signals weights :
  complete_override WEIGHT_KEYS weights →
  scores_as signals (py_or weights DEFAULT_WEIGHTS)
    (compute_weighted_risk_score signals weights) ∧
  (∀ w d, weights = Some w →
     compute_weighted_risk_score signals (Some (<["deps" := d]> w))
     = compute_weighted_risk_score signals weights ∧
     compute_weighted_risk_score signals (Some (delete "deps" w))
     = compute_weighted_risk_score signals weights).
Proof.
  intros Hw. split.
  - destruct (weighted_score_complete signals weights Hw) as [score Hscore].
    rewrite Hscore. now apply weighted_score_Ok.
  - intros w d ->.
    assert (Htests : is_Some (w !! "tests")).
    { apply (Hw w eq_refl). unfold WEIGHT_KEYS. apply list_elem_of_here. }
    assert (Hne : w ≠ ∅).
    { intros ->. rewrite lookup_empty in Htests. now destruct Htests. }
    assert (Hne_ins : <["deps" := d]> w ≠ ∅) by apply insert_non_empty.
    assert (Hne_del : delete "deps" w ≠ ∅).
    { intros Hempty. destruct Htests as [x Hx].
      assert (H : delete "deps" w !! "tests" = Some x)
        by now rewrite lookup_delete_ne.
      rewrite Hempty, lookup_empty in H. discriminate. }
    unfold compute_weighted_risk_score, getitem.
    rewrite !py_or_Some by assumption.
    rewrite !lookup_insert_ne, !lookup_delete_ne by discriminate.
    split; reflexivity.
Qed.

(** The default weights, on a release with one failing suite. *)
Lemma C7_weighted_score_witness :
  scores_as [make_signal SignalType.TEST "e2e_pass_rate" 0.50]
    (py_or None DEFAULT_WEIGHTS)
    (compute_weighted_risk_score
       [make_signal SignalType.TEST "e2e_pass_rate" 0.50] None).
Proof.
  apply (C7_weighted_score
           [make_signal SignalType.TEST "e2e_pass_rate" 0.50] None).
  intros d Hd. discriminate Hd.
Defined.

(** ** Missing configuration keys *)

(** C2, as the code has it.  A supplied non-empty Thresholds or Weights
    mapping is used as it is, with no default filled in for a missing key.
    Evaluation succeeds exactly when every key it reads is there: the limit
    keys of the checks whose signal is present, and the weights [tests],
    [coverage], [perf] and [canary] (never [deps]).  Otherwise it raises a
    key error naming such a missing key.  When it succeeds, every limit of
    the rationale and every weight of the score comes from the supplied
    mapping.  A supplied empty mapping counts as not supplied: the
    defaults are used. *)
Theorem C2_key_errors signals t w cfg :
  t ≠ ∅ → w ≠ ∅ →
  let outcome := evaluate_release signals (Some t) (Some w) cfg in
  (is_Ok outcome = true ↔
     (∀ c, c ∈ catalog →
        is_Some (get_signal_value signals c.(check_type) c.(check_signal)) →
        is_Some (t !! c.(limit_key))) ∧
     complete SCORED_WEIGHT_KEYS w) ∧
  (∀ k, outcome = Raise (KeyError k) →
     (∃ c, c ∈ catalog ∧ c.(limit_key) = k ∧
        is_Some (get_signal_value signals c.(check_type) c.(check_signal)) ∧
        t !! k = None) ∨
     (k ∈ SCORED_WEIGHT_KEYS ∧ w !! k = None)) ∧
  (∀ r, outcome = Ok r →
     (∀ x, x ∈ r.(rationale) →
        ∃ c, c ∈ catalog ∧ x.(rule) = c.(check_rule) ∧
          t !! c.(limit_key) = Some x.(limit)) ∧
     scores_as signals w (Ok r.(risk_score))) ∧
  (∀ th' w',
     evaluate_release signals (Some ∅) w' cfg
     = evaluate_release signals None w' cfg ∧
     evaluate_release signals th' (Some ∅) cfg
     = evaluate_release signals th' None cfg).
Proof.
  intros Ht Hw outcome. subst outcome.
  rewrite evaluate_release_policy, all_gates_catalog.
  pose proof (weighted_score_Ok_iff signals (Some w)) as Hscore_iff.
  pose proof (weighted_score_Raise signals (Some w)) as Hscore_raise.
  pose proof (weighted_score_Ok signals (Some w)) as Hscore_ok.
  rewrite (py_or_Some w _ Hw) in Hscore_iff, Hscore_raise, Hscore_ok.
  rewrite (py_or_Some t _ Ht).
  pose proof (run_catalog_Ok_iff signals t catalog) as Hrun_iff.
  pose proof (run_catalog_Raise signals t catalog) as Hrun_raise.
  pose proof (run_catalog_emitted signals t catalog) as Hrun_ok.
  destruct (run_catalog catalog signals t) as [results | [k0]]; simpl in *.
  - destruct (compute_weighted_risk_score signals (Some w))
      as [score | [k1]]; simpl in *.
    + split; [| split; [| split]].
      * split; [intros _ | reflexivity].
        split; [now apply Hrun_iff | now apply Hscore_iff].
      * discriminate.
      * intros r [= <-]. simpl. split; [| now apply Hscore_ok].
        intros x Hx.
        destruct (Hrun_ok results eq_refl x Hx)
          as (c & v & lim & Hc & _ & Hlim & ->).
        now exists c.
      * intros th' w'. split; reflexivity.
    + split; [| split; [| split]].
      * split; [discriminate |]. intros [_ H]. now apply Hscore_iff.
      * intros k [= <-]. right. now apply Hscore_raise.
      * discriminate.
      * intros th' w'. split; reflexivity.
  - split; [| split; [| split]].
    + split; [discriminate |]. intros [H _]. now apply Hrun_iff.
    + intros k [= <-]. left. now apply Hrun_raise.
    + discriminate.
    + intros th' w'. split; reflexivity.
Qed.

(** An override of the e2e limit alone, on a release that reports only its
    e2e pass rate: the one key read is there, and nothing is raised. *)
Lemma C2_key_errors_witness :
  is_Ok (evaluate_release
           [make_signal SignalType.TEST "e2e_pass_rate" 0.95]
           (Some {["e2e_pass_rate_min" := 0.9]})
           (Some DEFAULT_WEIGHTS) settings) = true.
Proof.
  apply (C2_key_errors
           [make_signal SignalType.TEST "e2e_pass_rate" 0.95]
           {["e2e_pass_rate_min" := 0.9]} DEFAULT_WEIGHTS settings).
  - apply insert_non_empty.
  - apply insert_non_empty.
  - split.
    + intros c Hc Hpresent. unfold catalog in Hc.
      repeat (apply elem_of_cons in Hc as [-> | Hc];
              [first [ now destruct Hpresent | vm_compute; eauto ] |]).
      inversion Hc.
    + apply complete_scored_of_all, DEFAULT_WEIGHTS_complete.
Defined.

(** Three supplied mappings with a required key missing, none of which
    raises: a thresholds mapping with one key out of nine; the empty
    thresholds mapping, for which the default limit 0.98 is used; a weights
    mapping without [deps]. *)
Lemma C2_counterexample :
  (¬ complete THRESHOLD_KEYS {["e2e_pass_rate_min" := 0.9]} ∧
   is_Ok (evaluate_release
            [make_signal SignalType.TEST "e2e_pass_rate" 0.95]
            (Some {["e2e_pass_rate_min" := 0.9]}) None settings) = true) ∧
  (¬ complete THRESHOLD_KEYS ∅ ∧
   ∃ r, evaluate_release
          [make_signal SignalType.TEST "e2e_pass_rate" 0.95]
          (Some ∅) None settings = Ok r ∧
        limit <$> r.(rationale) = [0.98]) ∧
  (¬ complete WEIGHT_KEYS (delete "deps" DEFAULT_WEIGHTS) ∧
   is_Ok (evaluate_release [] None
            (Some (delete "deps" DEFAULT_WEIGHTS)) settings) = true).
Proof.
  split; [| split].
  - split; [| vm_compute; reflexivity].
    intros H. destruct (H "unit_pass_rate_min") as [x Hx].
    + unfold THRESHOLD_KEYS. do 2 apply list_elem_of_further.
      apply list_elem_of_here.
    + vm_compute in Hx. discriminate.
  - split.
    + intros H. destruct (H "unit_pass_rate_min") as [x Hx].
      * unfold THRESHOLD_KEYS. do 2 apply list_elem_of_further.
        apply list_elem_of_here.
      * vm_compute in Hx. discriminate.
    + eexists. split; [vm_compute; reflexivity | reflexivity].
  - split; [| vm_compute; reflexivity].
    intros H. destruct (H "deps") as [x Hx].
    + unfold WEIGHT_KEYS. do 4 apply list_elem_of_further.
      apply list_elem_of_here.
    + vm_compute in Hx. discriminate.
Qed.

(** ** Built-ins on numbers *)

Lemma py_lt_true a b : py_lt a b = true ↔ a < b.
Proof.
  unfold py_lt. rewrite negb_true_iff. split.
  - intros H. apply Qnot_le_lt. intros Hle.
    apply Qle_bool_iff in Hle. congruence.
  - intros H. destruct (Qle_bool b a) eqn:E; [| reflexivity].
    apply Qle_bool_iff in E. lra.
Qed.

Lemma py_lt_false a b : py_lt a b = false ↔ b <= a.
Proof.
  unfold py_lt. rewrite negb_false_iff. apply Qle_bool_iff.
Qed.

Lemma py_min_cases a b :
  (b < a ∧ py_min a b = b) ∨ (a <= b ∧ py_min a b = a).
Proof.
  unfold py_min. destruct (py_lt b a) eqn:E.
  - left. split; [now apply py_lt_true | reflexivity].
  - right. split; [now apply py_lt_false | reflexivity].
Qed.

Lemma py_min_Qmin a b : py_min a b == Qmin a b.
Proof.
  destruct (py_min_cases a b) as [[H ->] | [H ->]].
  - symmetry. apply Q.min_r. lra.
  - symmetry. now apply Q.min_l.
Qed.

Lemma py_min_le_l a b : py_min a b <= a.
Proof. destruct (py_min_cases a b) as [[H ->] | [H ->]]; lra. Qed.

Lemma py_min_mono a b b' : b <= b' → py_min a b <= py_min a b'.
Proof.
  intros H.
  destruct (py_min_cases a b) as [[H1 ->] | [H1 ->]],
           (py_min_cases a b') as [[H2 ->] | [H2 ->]]; lra.
Qed.

Lemma fold_left_Qplus xs a : fold_left Qplus xs a == a + Qsum xs.
Proof.
  revert a. induction xs as [| x xs IH]; intros a; simpl.
  - ring.
  - rewrite IH. ring.
Qed.

Lemma py_sum_Qsum xs : py_sum xs == Qsum xs.
Proof. unfold py_sum. rewrite fold_left_Qplus. ring. Qed.

(** ** Category risks *)

(** The list the source builds is the list of present terms. *)
Lemma compute_test_risk_terms signals :
  compute_test_risk signals =
  match present_terms test_terms signals with
  | [] => 0.0
  | (_ :: _) as risks => py_min 1.0 (py_sum risks / py_len risks)
  end.
Proof.
  unfold compute_test_risk, present_terms, test_terms. simpl.
  destruct (get_signal_value signals SignalType.TEST "unit_pass_rate");
  destruct (get_signal_value signals SignalType.TEST "integration_pass_rate");
  destruct (get_signal_value signals SignalType.TEST "e2e_pass_rate");
  destruct (get_signal_value signals SignalType.TEST "flaky_rate");
  reflexivity.
Qed.

(** C4.  The test risk is the average of exactly the terms whose signal is
    present, 1 - unit_pass_rate, 1 - integration_pass_rate,
    (1 - e2e_pass_rate) x 1.5 and flaky_rate x 0.5: their sum divided by
    their number, clamped above at 1; with no term present it is 0. *)
Theorem C4_test_risk_is_average signals :
  match present_terms test_terms signals with
  | [] => compute_test_risk signals == 0
  | (_ :: _) as terms => compute_test_risk signals == Qmin 1 (average terms)
  end.
Proof.
  rewrite compute_test_risk_terms.
  destruct (present_terms test_terms signals) as [| x xs]; [reflexivity |].
  rewrite py_min_Qmin. unfold average, py_len.
  rewrite py_sum_Qsum. apply Q.min_compat; reflexivity.
Qed.

(** Case analysis on every [py_min], [py_lt], [Qmin] and [Qmax] of the goal
    and of the context, leaving linear arithmetic. *)
Ltac split_minmax :=
  repeat match goal with
    | |- context [py_lt ?a ?b] =>
        let E := fresh "E" in
        destruct (py_lt a b) eqn:E;
        [apply py_lt_true in E | apply py_lt_false in E]
    | H0 : context [py_lt ?a ?b] |- _ =>
        let E := fresh "E" in
        destruct (py_lt a b) eqn:E;
        [apply py_lt_true in E | apply py_lt_false in E]
    | |- context [py_min ?a ?b] =>
        let m := fresh "m" in
        let H := fresh "H" in
        pose proof (py_min_cases a b) as H;
        set (m := py_min a b) in *; clearbody m;
        destruct H as [[? ?] | [? ?]]; subst m
    | H0 : context [py_min ?a ?b] |- _ =>
        let m := fresh "m" in
        let H := fresh "H" in
        pose proof (py_min_cases a b) as H;
        set (m := py_min a b) in *; clearbody m;
        destruct H as [[? ?] | [? ?]]; subst m
    | |- context [Qmin ?a ?b] =>
        let m := fresh "m" in
        let H := fresh "H" in
        pose proof (Q.min_spec a b) as H;
        set (m := Qmin a b) in *; clearbody m;
        destruct H as [[? ?] | [? ?]]
    | H0 : context [Qmin ?a ?b] |- _ =>
        let m := fresh "m" in
        let H := fresh "H" in
        pose proof (Q.min_spec a b) as H;
        set (m := Qmin a b) in *; clearbody m;
        destruct H as [[? ?] | [? ?]]
    | |- context [Qmax ?a ?b] =>
        let m := fresh "m" in
        let H := fresh "H" in
        pose proof (Q.max_spec a b) as H;
        set (m := Qmax a b) in *; clearbody m;
        destruct H as [[? ?] | [? ?]]
    | H0 : context [Qmax ?a ?b] |- _ =>
        let m := fresh "m" in
        let H := fresh "H" in
        pose proof (Q.max_spec a b) as H;
        set (m := Qmax a b) in *; clearbody m;
        destruct H as [[? ?] | [? ?]]
    end.

(** C6, as the code has it.  The coverage risk is the maximum of the
    present terms, 1 - line_coverage and min(1, coverage_drop x 10),
    clamped above at 1, and 0 with no term present.  With coverage_drop
    absent and line_coverage present it is min(1, 1 - line_coverage),
    which is exactly 1 - line_coverage when line_coverage is not negative;
    and whenever line_coverage is absent or not negative the clamp changes
    nothing and the risk is the maximum of the present terms. *)
Theorem C6_coverage_risk_clamped_max signals :
  match present_terms coverage_terms signals with
  | [] => compute_coverage_risk signals == 0
  | x :: xs =>
      compute_coverage_risk signals == Qmin 1 (maximum x xs) ∧
      ((∀ lc, get_signal_value signals SignalType.COVERAGE "line_coverage"
              = Some lc → 0 <= lc) →
       compute_coverage_risk signals == maximum x xs)
  end ∧
  (∀ lc,
     get_signal_value signals SignalType.COVERAGE "coverage_drop" = None →
     get_signal_value signals SignalType.COVERAGE "line_coverage" = Some lc →
     compute_coverage_risk signals == Qmin 1 (1 - lc) ∧
     (0 <= lc → compute_coverage_risk signals == 1 - lc)).
Proof.
  unfold compute_coverage_risk, present_terms, coverage_terms, maximum.
  simpl.
  destruct (get_signal_value signals SignalType.COVERAGE "line_coverage")
    as [lc |];
  destruct (get_signal_value signals SignalType.COVERAGE "coverage_drop")
    as [drop |]; simpl; unfold py_max; simpl.
  - split; [split |]; [| intros Hlc; specialize (Hlc lc eq_refl) | discriminate];
      split_minmax; lra.
  - split; [split |].
    + split_minmax; lra.
    + intros Hlc. specialize (Hlc lc eq_refl). split_minmax; lra.
    + intros lc' _ [= <-]. split; [| intros Hlc]; split_minmax; lra.
  - split; [split |]; [| intros _ | discriminate]; split_minmax; lra.
  - split; [reflexivity | discriminate].
Qed.

(** A line_coverage of 0.75 alone, where binary64 is exact as well: the
    risk is 0.25. *)
Lemma C6_coverage_risk_clamped_max_witness :
  compute_coverage_risk
    [make_signal SignalType.COVERAGE "line_coverage" 0.75] == 0.25.
Proof.
  destruct (C6_coverage_risk_clamped_max
              [make_signal SignalType.COVERAGE "line_coverage" 0.75])
    as [_ H].
  destruct (H 0.75 eq_refl eq_refl) as [_ Hexact].
  rewrite Hexact; [reflexivity | discriminate].
Defined.

(** A negative line_coverage with coverage_drop absent: the one present
    term is 1.5, and the risk is 1.  And the example of the claim, as the
    coverage test of the repository runs it on binary64 values: with
    line_coverage = 0.90 the risk is 0.09999999999999998 and the test's
    [risk == 0.10] is false, while the coverage_drop test's
    [risk == 0.5] is true. *)
Lemma C6_counterexample :
  let signals := [make_signal SignalType.COVERAGE "line_coverage" (-0.5)] in
  get_signal_value signals SignalType.COVERAGE "coverage_drop" = None ∧
  get_signal_value signals SignalType.COVERAGE "line_coverage" = Some (-0.5) ∧
  present_terms coverage_terms signals = [1 - (-0.5)] ∧
  compute_coverage_risk signals == 1 ∧
  ¬ compute_coverage_risk signals == 1 - (-0.5) ∧
  Binary64.coverage_risk_test = (Binary64.one_minus_0_90, false) ∧
  Binary64.coverage_drop_risk_test.2 = true.
Proof.
  repeat split; try reflexivity. discriminate.
Qed.

(** *** Range of the category risks *)

(** No category risk exceeds 1. *)
Lemma risks_le_1 signals :
  compute_test_risk signals <= 1 ∧ compute_coverage_risk signals <= 1 ∧
  compute_perf_risk signals <= 1 ∧ compute_canary_risk signals <= 1.
Proof.
  unfold compute_test_risk, compute_coverage_risk, compute_perf_risk,
    compute_canary_risk.
  repeat split;
    match goal with
    | |- match ?risks with _ => _ end <= 1 =>
        destruct risks;
        [discriminate | eapply Qle_trans; [apply py_min_le_l | discriminate]]
    end.
Qed.

(** With no signal of its category found by the lookup, a risk is 0.0. *)
Lemma risks_absent signals :
  (get_signal_value signals SignalType.TEST "unit_pass_rate" = None →
   get_signal_value signals SignalType.TEST "integration_pass_rate" = None →
   get_signal_value signals SignalType.TEST "e2e_pass_rate" = None →
   get_signal_value signals SignalType.TEST "flaky_rate" = None →
   compute_test_risk signals = 0.0) ∧
  (get_signal_value signals SignalType.COVERAGE "line_coverage" = None →
   get_signal_value signals SignalType.COVERAGE "coverage_drop" = None →
   compute_coverage_risk signals = 0.0) ∧
  (get_signal_value signals SignalType.PERF "p95_regression" = None →
   get_signal_value signals SignalType.PERF "error_rate" = None →
   compute_perf_risk signals = 0.0) ∧
  (get_signal_value signals SignalType.CANARY "5xx_rate" = None →
   get_signal_value signals SignalType.CANARY "p95_regression" = None →
   compute_canary_risk signals = 0.0).
Proof.
  unfold compute_test_risk, compute_coverage_risk, compute_perf_risk,
    compute_canary_risk.
  repeat split; intros; repeat match goal with H : _ = None |- _ =>
    rewrite H; clear H end; reflexivity.
Qed.

(** With rates between 0 and 1 and no negative drop, regression or error
    rate, no category risk is negative. *)
Lemma risks_ge_0 signals :
  (∀ ty key v, get_signal_value signals ty key = Some v → 0 <= v) →
  (∀ key v, get_signal_value signals SignalType.TEST key = Some v → v <= 1) →
  (∀ v, get_signal_value signals SignalType.COVERAGE "line_coverage" = Some v →
        v <= 1) →
  0 <= compute_test_risk signals ∧ 0 <= compute_coverage_risk signals ∧
  0 <= compute_perf_risk signals ∧ 0 <= compute_canary_risk signals.
Proof.
  intros Hpos Htest Hcov.
  assert (Hdiv : ∀ x, 0 <= x → 0 <= x / 0.15 ∧ 0 <= x / 0.01).
  { intros x Hx. split; apply Qle_shift_div_l; try reflexivity; lra. }
  unfold compute_test_risk, compute_coverage_risk, compute_perf_risk,
    compute_canary_risk.
  repeat split.
  - pose proof (Hpos SignalType.TEST "unit_pass_rate") as P1.
    pose proof (Hpos SignalType.TEST "integration_pass_rate") as P2.
    pose proof (Hpos SignalType.TEST "e2e_pass_rate") as P3.
    pose proof (Hpos SignalType.TEST "flaky_rate") as P4.
    pose proof (Htest "unit_pass_rate") as U1.
    pose proof (Htest "integration_pass_rate") as U2.
    pose proof (Htest "e2e_pass_rate") as U3.
    destruct (get_signal_value signals SignalType.TEST "unit_pass_rate")
      as [u |]; [specialize (P1 u eq_refl); specialize (U1 u eq_refl) |];
    destruct (get_signal_value signals SignalType.TEST "integration_pass_rate")
      as [i |]; [specialize (P2 i eq_refl); specialize (U2 i eq_refl) | |
                 specialize (P2 i eq_refl); specialize (U2 i eq_refl) |];
    destruct (get_signal_value signals SignalType.TEST "e2e_pass_rate")
      as [e |]; try (specialize (P3 e eq_refl); specialize (U3 e eq_refl));
    destruct (get_signal_value signals SignalType.TEST "flaky_rate")
      as [f |]; try specialize (P4 f eq_refl);
    cbn [append_if_present app]; try discriminate;
    unfold py_sum, py_len;
    cbn [fold_left length Z.of_nat Pos.of_succ_nat Pos.succ];
    (match goal with
     | |- 0 <= py_min 1.0 ?x =>
         assert (0 <= x)
           by (unfold Qdiv; apply Qmult_le_0_compat;
               [lra | apply Qinv_le_0_compat; discriminate])
     end);
    split_minmax; lra.
  - pose proof (Hpos SignalType.COVERAGE "coverage_drop") as P.
    destruct (get_signal_value signals SignalType.COVERAGE "line_coverage")
      as [lc |]; [specialize (Hcov lc eq_refl) |];
    destruct (get_signal_value signals SignalType.COVERAGE "coverage_drop")
      as [d |]; try specialize (P d eq_refl);
    cbn [append_if_present app]; try discriminate;
    unfold py_max; cbn [fold_left]; split_minmax; lra.
  - pose proof (Hpos SignalType.PERF "p95_regression") as P1.
    pose proof (Hpos SignalType.PERF "error_rate") as P2.
    destruct (get_signal_value signals SignalType.PERF "p95_regression")
      as [p |]; [destruct (Hdiv p (P1 p eq_refl)) |];
    destruct (get_signal_value signals SignalType.PERF "error_rate")
      as [e |]; try destruct (Hdiv e (P2 e eq_refl));
    cbn [append_if_present app]; try discriminate;
    unfold py_max; cbn [fold_left]; split_minmax; lra.
  - pose proof (Hpos SignalType.CANARY "5xx_rate") as P1.
    pose proof (Hpos SignalType.CANARY "p95_regression") as P2.
    destruct (get_signal_value signals SignalType.CANARY "5xx_rate")
      as [p |]; [destruct (Hdiv p (P1 p eq_refl)) |];
    destruct (get_signal_value signals SignalType.CANARY "p95_regression")
      as [e |]; try destruct (Hdiv e (P2 e eq_refl));
    cbn [append_if_present app]; try discriminate;
    unfold py_max; cbn [fold_left]; split_minmax; lra.
Qed.

Ltac key_listed :=
  unfold RISING_KEYS, PASS_RATE_KEYS;
  repeat first [apply list_elem_of_here | apply list_elem_of_further].

(** The same from what the risk functions read only: no pass rate and no
    line coverage above 1, and no negative value under a key of
    [RISING_KEYS].  Nothing is asked of total_tests or of a key the engine
    does not read. *)
Lemma risks_ge_0_read signals :
  (∀ key v, key ∈ PASS_RATE_KEYS →
            get_signal_value signals SignalType.TEST key = Some v → v <= 1) →
  (∀ v, get_signal_value signals SignalType.COVERAGE "line_coverage" = Some v →
        v <= 1) →
  (∀ ty key v, (ty, key) ∈ RISING_KEYS →
               get_signal_value signals ty key = Some v → 0 <= v) →
  0 <= compute_test_risk signals ∧ 0 <= compute_coverage_risk signals ∧
  0 <= compute_perf_risk signals ∧ 0 <= compute_canary_risk signals.
Proof.
  intros Hrate Hcov Hpos.
  assert (Hdiv : ∀ x, 0 <= x → 0 <= x / 0.15 ∧ 0 <= x / 0.01).
  { intros x Hx. split; apply Qle_shift_div_l; try reflexivity; lra. }
  assert (Hin : ∀ ty key, (ty, key) ∈ RISING_KEYS →
                ∀ v, get_signal_value signals ty key = Some v → 0 <= v)
    by (intros ty key Hk v; now apply Hpos).
  assert (Hpass : ∀ key, key ∈ PASS_RATE_KEYS →
                  ∀ v, get_signal_value signals SignalType.TEST key = Some v →
                       v <= 1)
    by (intros key Hk v; now apply Hrate).
  unfold compute_test_risk, compute_coverage_risk, compute_perf_risk,
    compute_canary_risk.
  repeat split.
  - pose proof (Hin SignalType.TEST "flaky_rate"
                  ltac:(key_listed)) as P4.
    pose proof (Hpass "unit_pass_rate"
                  ltac:(key_listed)) as U1.
    pose proof (Hpass "integration_pass_rate"
                  ltac:(key_listed)) as U2.
    pose proof (Hpass "e2e_pass_rate"
                  ltac:(key_listed)) as U3.
    destruct (get_signal_value signals SignalType.TEST "unit_pass_rate")
      as [u |]; [specialize (U1 u eq_refl) |];
    destruct (get_signal_value signals SignalType.TEST "integration_pass_rate")
      as [i |]; try specialize (U2 i eq_refl);
    destruct (get_signal_value signals SignalType.TEST "e2e_pass_rate")
      as [e |]; try specialize (U3 e eq_refl);
    destruct (get_signal_value signals SignalType.TEST "flaky_rate")
      as [f |]; try specialize (P4 f eq_refl);
    cbn [append_if_present app]; try discriminate;
    unfold py_sum, py_len;
    cbn [fold_left length Z.of_nat Pos.of_succ_nat Pos.succ];
    (match goal with
     | |- 0 <= py_min 1.0 ?x =>
         assert (0 <= x)
           by (unfold Qdiv; apply Qmult_le_0_compat;
               [lra | apply Qinv_le_0_compat; discriminate])
     end);
    split_minmax; lra.
  - pose proof (Hin SignalType.COVERAGE "coverage_drop"
                  ltac:(key_listed)) as P.
    destruct (get_signal_value signals SignalType.COVERAGE "line_coverage")
      as [lc |]; [specialize (Hcov lc eq_refl) |];
    destruct (get_signal_value signals SignalType.COVERAGE "coverage_drop")
      as [d |]; try specialize (P d eq_refl);
    cbn [append_if_present app]; try discriminate;
    unfold py_max; cbn [fold_left]; split_minmax; lra.
  - pose proof (Hin SignalType.PERF "p95_regression"
                  ltac:(key_listed)) as P1.
    pose proof (Hin SignalType.PERF "error_rate"
                  ltac:(key_listed)) as P2.
    destruct (get_signal_value signals SignalType.PERF "p95_regression")
      as [p |]; [destruct (Hdiv p (P1 p eq_refl)) |];
    destruct (get_signal_value signals SignalType.PERF "error_rate")
      as [e |]; try destruct (Hdiv e (P2 e eq_refl));
    cbn [append_if_present app]; try discriminate;
    unfold py_max; cbn [fold_left]; split_minmax; lra.
  - pose proof (Hin SignalType.CANARY "5xx_rate"
                  ltac:(key_listed)) as P1.
    pose proof (Hin SignalType.CANARY "p95_regression"
                  ltac:(key_listed)) as P2.
    destruct (get_signal_value signals SignalType.CANARY "5xx_rate")
      as [p |]; [destruct (Hdiv p (P1 p eq_refl)) |];
    destruct (get_signal_value signals SignalType.CANARY "p95_regression")
      as [e |]; try destruct (Hdiv e (P2 e eq_refl));
    cbn [append_if_present app]; try discriminate;
    unfold py_max; cbn [fold_left]; split_minmax; lra.
Qed.

(** C3 at its failing inputs.  A coverage that rose by five points is a
    coverage_drop of -0.05, and the coverage risk is -0.5; a latency that
    improved by three percent gives a performance and a canary risk of
    -0.2; a pass rate above 1 gives a negative test risk.  None of the
    four functions clamps below. *)
Theorem C3_risk_below_zero :
  compute_coverage_risk
    [make_signal SignalType.COVERAGE "coverage_drop" (-0.05)] == -0.5 ∧
  compute_perf_risk
    [make_signal SignalType.PERF "p95_regression" (-0.03)] == -0.2 ∧
  compute_canary_risk
    [make_signal SignalType.CANARY "p95_regression" (-0.03)] == -0.2 ∧
  compute_test_risk
    [make_signal SignalType.TEST "unit_pass_rate" 1.2] == -0.2 ∧
  ¬ 0 <= compute_coverage_risk
           [make_signal SignalType.COVERAGE "coverage_drop" (-0.05)].
Proof.
  repeat split; try reflexivity. vm_compute. intros H. now apply H.
Qed.

(** ** Monotonicity of the test risk *)

Lemma get_signal_value_replace_same signals ty key old v :
  get_signal_value signals ty key = Some old →
  get_signal_value (replace_first signals ty key v) ty key = Some v.
Proof.
  induction signals as [| s rest IH]; simpl; [discriminate |].
  fold (matches ty key s). destruct (matches ty key s) eqn:Hs; simpl.
  - intros _. apply matches_iff in Hs as [-> ->].
    now rewrite !bool_decide_eq_true_2.
  - fold (matches ty key s). now rewrite Hs.
Qed.

Lemma get_signal_value_replace_other signals ty key v ty' key' :
  (ty', key') ≠ (ty, key) →
  get_signal_value (replace_first signals ty key v) ty' key' =
  get_signal_value signals ty' key'.
Proof.
  intros Hne. induction signals as [| s rest IH]; simpl; [reflexivity |].
  fold (matches ty' key' s).
  destruct (matches ty key s) eqn:Hs; simpl.
  - fold (matches ty' key' s).
    now rewrite (matches_other _ _ _ _ _ Hne Hs).
  - fold (matches ty' key' s). now rewrite IH.
Qed.

(** C9.  In a signal sequence whose lookup finds a value for a pass-rate
    key (unit, integration or e2e), giving the first signal of that key
    any smaller value never decreases the test risk. *)
Theorem C9_test_risk_monotone signals key old new :
  key ∈ PASS_RATE_KEYS →
  get_signal_value signals SignalType.TEST key = Some old →
  new <= old →
  compute_test_risk signals
  <= compute_test_risk (replace_first signals SignalType.TEST key new).
Proof.
  intros Hkey Hold Hle. unfold PASS_RATE_KEYS in Hkey.
  unfold compute_test_risk.
  repeat (apply elem_of_cons in Hkey as [-> | Hkey]); [| | | inversion Hkey].
  all: rewrite (get_signal_value_replace_same _ _ _ _ new Hold), Hold.
  all: rewrite !get_signal_value_replace_other by discriminate.
  all: destruct (get_signal_value signals SignalType.TEST "flaky_rate")
         as [flaky |].
  all: try destruct (get_signal_value signals SignalType.TEST "unit_pass_rate")
         as [u |].
  all: try destruct
         (get_signal_value signals SignalType.TEST "integration_pass_rate")
         as [i |].
  all: try destruct (get_signal_value signals SignalType.TEST "e2e_pass_rate")
         as [e |].
  all: cbn [append_if_present app]; unfold py_sum, py_len;
       cbn [fold_left length Z.of_nat Pos.of_succ_nat Pos.succ].
  all: apply py_min_mono; unfold Qdiv;
       (apply Qmult_le_compat_r;
        [lra | apply Qinv_le_0_compat; discriminate]).
Qed.

(** The bad release of the tests, with its e2e pass rate lowered from 0.50
    to 0.25. *)
Lemma C9_test_risk_monotone_witness :
  compute_test_risk
    [make_signal SignalType.TEST "e2e_pass_rate" 0.50;
     make_signal SignalType.TEST "total_tests" 100]
  <= compute_test_risk
       (replace_first
          [make_signal SignalType.TEST "e2e_pass_rate" 0.50;
           make_signal SignalType.TEST "total_tests" 100]
          SignalType.TEST "e2e_pass_rate" 0.25).
Proof.
  apply (C9_test_risk_monotone _ "e2e_pass_rate" 0.50 0.25).
  - unfold PASS_RATE_KEYS. do 2 apply list_elem_of_further.
    apply list_elem_of_here.
  - reflexivity.
  - discriminate.
Defined.

(** ** The repository's tests, on the model *)

Example test_e2e_pass_rate_fail :
  match
    evaluate_hard_gates [make_signal SignalType.TEST "e2e_pass_rate" 0.90] None
  with
  | Ok [r] =>
      r.(rule) = "E2E_PASS_RATE" ∧ r.(passed) = false ∧
      r.(severity) = Severity.BLOCK
  | _ => False
  end.
Proof. repeat split. Qed.

Example test_zero_tests_blocks :
  match
    evaluate_hard_gates [make_signal SignalType.TEST "total_tests" 0] None
  with
  | Ok [r] =>
      r.(rule) = "TOTAL_TESTS" ∧ r.(passed) = false ∧
      r.(severity) = Severity.BLOCK
  | _ => False
  end.
Proof. repeat split. Qed.

Example test_perfect_tests_zero_risk :
  compute_test_risk
    [make_signal SignalType.TEST "unit_pass_rate" 1.0;
     make_signal SignalType.TEST "e2e_pass_rate" 1.0] == 0.
Proof. reflexivity. Qed.

Example test_coverage_drop_risk :
  compute_coverage_risk
    [make_signal SignalType.COVERAGE "coverage_drop" 0.05] == 0.5.
Proof. reflexivity. Qed.

Example test_good_release_approved :
  ∃ r,
    evaluate_release
      [make_signal SignalType.TEST "e2e_pass_rate" 1.0;
       make_signal SignalType.TEST "unit_pass_rate" 1.0;
       make_signal SignalType.TEST "total_tests" 100;
       make_signal SignalType.COVERAGE "line_coverage" 0.90]
      None None settings = Ok r ∧
    r.(decision) = Decision.APPROVE ∧ r.(risk_score) < 30.
Proof. eexists. split; [vm_compute; reflexivity |]. split; reflexivity. Qed.

Example test_bad_tests_blocked :
  ∃ r,
    evaluate_release
      [make_signal SignalType.TEST "e2e_pass_rate" 0.50;
       make_signal SignalType.TEST "total_tests" 100]
      None None settings = Ok r ∧
    r.(decision) = Decision.BLOCK ∧
    Exists (λ x, x.(rule) = "E2E_PASS_RATE" ∧ failed_with Severity.BLOCK x)
      r.(rationale).
Proof.
  eexists. split; [vm_compute; reflexivity |]. split; [reflexivity |].
  apply Exists_cons_hd. repeat split.
Qed.

(** * Further properties of the engine *)

(** ** Performance and canary risk *)

(** The performance risk is the greater of its present terms,
    min(1, p95_regression / 0.15) and min(1, error_rate / 0.01), and the
    canary risk the greater of min(1, 5xx_rate / 0.01) and
    min(1, p95_regression / 0.15): each term is clamped already, so the
    final clamp changes nothing.  With no term present the risk is 0. *)
Theorem perf_and_canary_risk_are_maxima signals :
  match get_signal_value signals SignalType.PERF "p95_regression",
        get_signal_value signals SignalType.PERF "error_rate" with
  | None, None => compute_perf_risk signals == 0
  | Some p, None => compute_perf_risk signals == Qmin 1 (p / 0.15)
  | None, Some e => compute_perf_risk signals == Qmin 1 (e / 0.01)
  | Some p, Some e =>
      compute_perf_risk signals == Qmax (Qmin 1 (p / 0.15)) (Qmin 1 (e / 0.01))
  end ∧
  match get_signal_value signals SignalType.CANARY "5xx_rate",
        get_signal_value signals SignalType.CANARY "p95_regression" with
  | None, None => compute_canary_risk signals == 0
  | Some x, None => compute_canary_risk signals == Qmin 1 (x / 0.01)
  | None, Some p => compute_canary_risk signals == Qmin 1 (p / 0.15)
  | Some x, Some p =>
      compute_canary_risk signals
      == Qmax (Qmin 1 (x / 0.01)) (Qmin 1 (p / 0.15))
  end.
Proof.
  unfold compute_perf_risk, compute_canary_risk. split.
  - destruct (get_signal_value signals SignalType.PERF "p95_regression")
      as [p |];
    destruct (get_signal_value signals SignalType.PERF "error_rate")
      as [e |]; cbn [append_if_present app]; try reflexivity;
    unfold py_max; cbn [fold_left]; split_minmax; lra.
  - destruct (get_signal_value signals SignalType.CANARY "5xx_rate")
      as [x |];
    destruct (get_signal_value signals SignalType.CANARY "p95_regression")
      as [p |]; cbn [append_if_present app]; try reflexivity;
    unfold py_max; cbn [fold_left]; split_minmax; lra.
Qed.

(** ** Range of the score under the default weights *)

Lemma default_weights_values :
  DEFAULT_WEIGHTS !! "tests" = Some 0.35 ∧
  DEFAULT_WEIGHTS !! "coverage" = Some 0.10 ∧
  DEFAULT_WEIGHTS !! "perf" = Some 0.25 ∧
  DEFAULT_WEIGHTS !! "canary" = Some 0.25.
Proof. repeat split; reflexivity. Qed.

Lemma default_score signals :
  ∃ score, compute_weighted_risk_score signals None = Ok score ∧
    score == 100 * (0.35 * compute_test_risk signals
                    + 0.10 * compute_coverage_risk signals
                    + 0.25 * compute_perf_risk signals
                    + 0.25 * compute_canary_risk signals).
Proof.
  destruct (weighted_score_complete signals None) as [score Hscore].
  { intros d Hd. discriminate Hd. }
  exists score. split; [exact Hscore |].
  apply weighted_score_Ok in Hscore
    as (wt & wc & wp & wca & s & Ht & Hc & Hp & Hca & [= <-] & Hs).
  destruct default_weights_values as (Dt & Dc & Dp & Dca).
  change (py_or None DEFAULT_WEIGHTS) with DEFAULT_WEIGHTS in *.
  rewrite Dt in Ht. rewrite Dc in Hc. rewrite Dp in Hp. rewrite Dca in Hca.
  injection Ht as <-. injection Hc as <-. injection Hp as <-.
  injection Hca as <-. exact Hs.
Qed.

(** With the default thresholds and weights an evaluation raises no key
    error, whatever the signals are, and the risk score of every result it
    returns is at most 95: the four weights that are used add up to 0.95.
    That score is not negative when no pass rate and no line coverage
    exceeds 1 and no flaky rate, coverage drop, regression, error rate or
    5xx rate is negative; nothing is asked of total_tests. *)
Theorem default_risk_score_at_most_95 signals cfg :
  (∀ key, evaluate_release signals None None cfg ≠ Raise (KeyError key)) ∧
  (∀ r, evaluate_release signals None None cfg = Ok r →
     r.(risk_score) <= 95 ∧
     ((∀ key v, key ∈ PASS_RATE_KEYS →
                get_signal_value signals SignalType.TEST key = Some v →
                v <= 1) →
      (∀ v, get_signal_value signals SignalType.COVERAGE "line_coverage"
            = Some v → v <= 1) →
      (∀ ty key v, (ty, key) ∈ RISING_KEYS →
                   get_signal_value signals ty key = Some v → 0 <= v) →
      0 <= r.(risk_score))).
Proof.
  destruct (all_gates_complete signals None) as [results Hgates].
  { intros d Hd. discriminate Hd. }
  destruct (default_score signals) as (score & Hscore & Hval).
  rewrite evaluate_release_policy, Hgates, Hscore. simpl.
  split; [discriminate |].
  intros r [= <-]. simpl.
  destruct (risks_le_1 signals) as (Ht & Hc & Hp & Hca).
  split.
  - rewrite Hval. lra.
  - intros Hrate Hcov Hpos.
    destruct (risks_ge_0_read signals Hrate Hcov Hpos) as (Gt & Gc & Gp & Gca).
    rewrite Hval. lra.
Qed.

(** The good release of the tests, with its 100 tests: the evaluation
    returns, and the score is between 0 and 95. *)
Lemma default_risk_score_at_most_95_witness :
  ∃ r,
    evaluate_release
      [make_signal SignalType.TEST "e2e_pass_rate" 1.0;
       make_signal SignalType.TEST "total_tests" 100;
       make_signal SignalType.COVERAGE "line_coverage" 0.90]
      None None settings = Ok r ∧
    0 <= r.(risk_score) ∧ r.(risk_score) <= 95.
Proof.
  destruct (evaluate_release
              [make_signal SignalType.TEST "e2e_pass_rate" 1.0;
               make_signal SignalType.TEST "total_tests" 100;
               make_signal SignalType.COVERAGE "line_coverage" 0.90]
              None None settings) as [r | e] eqn:Hr;
    [| vm_compute in Hr; discriminate Hr].
  destruct (default_risk_score_at_most_95
              [make_signal SignalType.TEST "e2e_pass_rate" 1.0;
               make_signal SignalType.TEST "total_tests" 100;
               make_signal SignalType.COVERAGE "line_coverage" 0.90]
              settings) as [_ Hall].
  destruct (Hall r Hr) as [Hle Hge].
  exists r. split; [reflexivity |]. split; [| exact Hle].
  apply Hge.
  - intros key v Hk. apply list_elem_of_In in Hk.
    destruct Hk as [<- | [<- | [<- | []]]];
      intros Hv; try discriminate Hv.
    injection Hv as <-. discriminate.
  - intros v [= <-]. discriminate.
  - intros ty key v Hk. apply list_elem_of_In in Hk.
    destruct Hk as [[= <- <-] | [[= <- <-] | [[= <- <-] | [[= <- <-] |
                   [[= <- <-] | [[= <- <-] | []]]]]]];
      intros Hv; discriminate Hv.
Defined.

(** ** Which signals matter *)

Section EngineKeys.

Variables signals signals' : list Signal.
Hypothesis same_on_keys :
  ∀ ty key, (ty, key) ∈ ENGINE_KEYS →
    get_signal_value signals' ty key = get_signal_value signals ty key.

Ltac engine_key :=
  unfold ENGINE_KEYS;
  repeat first [apply list_elem_of_here | apply list_elem_of_further].

(** The engine reads no other key than the eleven of [ENGINE_KEYS]. *)
Lemma evaluate_release_keys th w cfg :
  evaluate_release signals' th w cfg = evaluate_release signals th w cfg.
Proof.
  assert (K1 := same_on_keys SignalType.TEST "e2e_pass_rate" ltac:(engine_key)).
  assert (K2 := same_on_keys SignalType.TEST "integration_pass_rate"
                  ltac:(engine_key)).
  assert (K3 := same_on_keys SignalType.TEST "unit_pass_rate" ltac:(engine_key)).
  assert (K4 := same_on_keys SignalType.TEST "total_tests" ltac:(engine_key)).
  assert (K5 := same_on_keys SignalType.TEST "flaky_rate" ltac:(engine_key)).
  assert (K6 := same_on_keys SignalType.COVERAGE "line_coverage"
                  ltac:(engine_key)).
  assert (K7 := same_on_keys SignalType.COVERAGE "coverage_drop"
                  ltac:(engine_key)).
  assert (K8 := same_on_keys SignalType.PERF "p95_regression" ltac:(engine_key)).
  assert (K9 := same_on_keys SignalType.PERF "error_rate" ltac:(engine_key)).
  assert (K10 := same_on_keys SignalType.CANARY "5xx_rate" ltac:(engine_key)).
  assert (K11 := same_on_keys SignalType.CANARY "p95_regression"
                   ltac:(engine_key)).
  unfold evaluate_release, evaluate_hard_gates, evaluate_performance_gates,
    evaluate_canary_gates, compute_weighted_risk_score, compute_test_risk,
    compute_coverage_risk, compute_perf_risk, compute_canary_risk.
  now rewrite K1, K2, K3, K4, K5, K6, K7, K8, K9, K10, K11.
Qed.

End EngineKeys.

Lemma get_signal_value_app signals signals' ty key :
  get_signal_value (signals ++ signals') ty key =
  if existsb (matches ty key) signals
  then get_signal_value signals ty key
  else get_signal_value signals' ty key.
Proof.
  induction signals as [| x rest IH]; [reflexivity |].
  simpl. fold (matches ty key x).
  destruct (matches ty key x); [reflexivity | exact IH].
Qed.

(** A signal that does not match the key, or that comes after one that
    does, has no part in the lookup. *)
Lemma get_signal_value_skip pre s post ty key :
  matches ty key s = false ∨ existsb (matches ty key) pre = true →
  get_signal_value (pre ++ s :: post) ty key =
  get_signal_value (pre ++ post) ty key.
Proof.
  intros H. rewrite !get_signal_value_app.
  destruct (existsb (matches ty key) pre) eqn:E; [reflexivity |].
  destruct H as [H | H]; [| discriminate].
  rewrite get_signal_value_cons. now rewrite H.
Qed.

(** A signal whose type and name are none of the eleven keys the engine
    reads (a DEP signal, a duration, a misspelt metric) can be put anywhere
    in the sequence, or taken out, without any change to the outcome of
    [evaluate_release]: rationale, score, decision or error. *)
Theorem unrecognised_signal_ignored pre s post th w cfg :
  (s.(type), s.(name)) ∉ ENGINE_KEYS →
  evaluate_release (pre ++ s :: post) th w cfg =
  evaluate_release (pre ++ post) th w cfg.
Proof.
  intros Hs. apply evaluate_release_keys. intros ty key Hkey.
  apply get_signal_value_skip. left.
  destruct (matches ty key s) eqn:E; [| reflexivity].
  apply matches_iff in E as [<- <-]. contradiction.
Qed.

Lemma unrecognised_signal_ignored_witness :
  evaluate_release
    ([make_signal SignalType.TEST "e2e_pass_rate" 0.50]
     ++ make_signal SignalType.DEP "vulnerabilities" 12
     :: [make_signal SignalType.TEST "total_tests" 100])
    None None settings =
  evaluate_release
    ([make_signal SignalType.TEST "e2e_pass_rate" 0.50]
     ++ [make_signal SignalType.TEST "total_tests" 100])
    None None settings.
Proof.
  apply unrecognised_signal_ignored.
  apply (bool_decide_unpack _). vm_compute. exact I.
Defined.

(** Of several signals with the same type and name only the first is ever
    read: dropping a later one changes nothing in the outcome of
    [evaluate_release], whatever value it carries. *)
Theorem later_duplicate_ignored pre s mid s' post th w cfg :
  s'.(type) = s.(type) → s'.(name) = s.(name) →
  evaluate_release (pre ++ s :: mid ++ s' :: post) th w cfg =
  evaluate_release (pre ++ s :: mid ++ post) th w cfg.
Proof.
  intros Hty Hname.
  apply evaluate_release_ext. intros ty key.
  replace (pre ++ s :: mid ++ s' :: post)
    with ((pre ++ s :: mid) ++ s' :: post) by now rewrite <- app_assoc.
  replace (pre ++ s :: mid ++ post)
    with ((pre ++ s :: mid) ++ post) by now rewrite <- app_assoc.
  apply get_signal_value_skip.
  destruct (matches ty key s') eqn:E; [right | now left].
  apply matches_iff in E as [E1 E2].
  rewrite existsb_app. simpl.
  assert (Hs : matches ty key s = true) by (apply matches_iff; split; congruence).
  rewrite Hs. now rewrite orb_true_r.
Qed.

(** A passing e2e rate reported first hides a failing one reported later. *)
Lemma later_duplicate_ignored_witness :
  evaluate_release
    ([] ++ make_signal SignalType.TEST "e2e_pass_rate" 1.0
        :: [] ++ make_signal SignalType.TEST "e2e_pass_rate" 0.10 :: [])
    None None settings =
  evaluate_release
    ([] ++ make_signal SignalType.TEST "e2e_pass_rate" 1.0 :: [] ++ [])
    None None settings.
Proof.
  apply later_duplicate_ignored; reflexivity.
Defined.

(** ** The rationale *)

Lemma catalog_on_fail c :
  c ∈ catalog → c.(on_fail) = Severity.BLOCK ∨ c.(on_fail) = Severity.WARN.
Proof.
  unfold catalog. intros Hc.
  repeat (apply elem_of_cons in Hc as [-> | Hc]; [simpl; tauto |]).
  inversion Hc.
Qed.

Lemma evaluate_release_Ok_inv signals th w cfg r :
  evaluate_release signals th w cfg = Ok r →
  run_catalog catalog signals (py_or th DEFAULT_THRESHOLDS) = Ok r.(rationale) ∧
  compute_weighted_risk_score signals w = Ok r.(risk_score) ∧
  r.(decision) = decision_policy r.(rationale) r.(risk_score) cfg.
Proof.
  rewrite evaluate_release_policy, all_gates_catalog. intros Hr.
  apply bind_Ok_inv in Hr as (results & Hgates & Hr).
  apply bind_Ok_inv in Hr as (score & Hscore & [= <-]).
  now repeat split.
Qed.

(** Every result of a rationale is consistent: it passed exactly when its
    severity is INFO, a failed one has severity BLOCK or WARN, its rule is
    one of the catalog, and its message shows the observed value and the
    limit that were compared, with the sign of the outcome. *)
Theorem rationale_results_consistent signals th w cfg r x :
  evaluate_release signals th w cfg = Ok r →
  x ∈ r.(rationale) →
  (x.(passed) = true ↔ x.(severity) = Severity.INFO) ∧
  (x.(passed) = false →
   x.(severity) = Severity.BLOCK ∨ x.(severity) = Severity.WARN) ∧
  (∃ c, c ∈ catalog ∧ x.(rule) = c.(check_rule) ∧
     x.(passed) = holds c.(comparator) x.(observed) x.(limit) ∧
     get_signal_value signals c.(check_type) c.(check_signal)
       = Some x.(observed) ∧
     x.(message).(msg_sign) = sign_of c.(comparator) x.(passed)) ∧
  x.(message).(msg_observed) = x.(observed) ∧
  x.(message).(msg_limit) = x.(limit).
Proof.
  intros Hr Hx. apply evaluate_release_Ok_inv in Hr as (Hrun & _ & _).
  destruct (run_catalog_emitted _ _ _ _ Hrun x Hx)
    as (c & v & lim & Hc & Hv & Hlim & ->).
  pose proof (catalog_on_fail c Hc) as Hfail.
  unfold check_result. simpl.
  destruct (holds (comparator c) v lim) eqn:E.
  - split; [tauto |]. split; [discriminate |].
    split; [| tauto]. exists c. now rewrite E.
  - split.
    { split; [discriminate |]. destruct Hfail as [-> | ->]; discriminate. }
    split; [tauto |]. split; [| tauto]. exists c. now rewrite E.
Qed.

Lemma rationale_results_consistent_witness :
  match
    evaluate_release [make_signal SignalType.COVERAGE "coverage_drop" 0.03]
      None None settings
  with
  | Ok r =>
      Forall (λ x, x.(passed) = true ↔ x.(severity) = Severity.INFO)
        r.(rationale)
  | Raise _ => False
  end.
Proof.
  destruct (evaluate_release
              [make_signal SignalType.COVERAGE "coverage_drop" 0.03]
              None None settings) as [r | e] eqn:Hr.
  - apply Forall_forall. intros x Hx.
    destruct (rationale_results_consistent _ _ _ _ _ x Hr Hx) as [H _].
    exact H.
  - vm_compute in Hr. discriminate Hr.
Defined.

Lemma run_catalog_sublist signals t checks results :
  run_catalog checks signals t = Ok results →
  rule <$> results `sublist_of` check_rule <$> checks.
Proof.
  revert results. induction checks as [| c rest IH]; simpl; intros results.
  - intros [= <-]. constructor.
  - destruct (get_signal_value signals (check_type c) (check_signal c))
      as [v |]; simpl.
    + destruct (getitem t (limit_key c)) as [lim | e]; simpl; [| discriminate].
      destruct (run_catalog rest signals t) as [emitted | e]; simpl;
        [| discriminate].
      intros [= <-]. simpl. apply sublist_skip. now apply IH.
    + intros H. apply sublist_cons. now apply IH.
Qed.

(** The rules of a rationale appear in the order of the checks, each at
    most once: they are a sub-sequence of the nine rule ids, so a rationale
    never has more than nine results nor two for one rule. *)
Theorem rationale_in_check_order signals th w cfg r :
  evaluate_release signals th w cfg = Ok r →
  rule <$> r.(rationale) `sublist_of`
    ["E2E_PASS_RATE"; "INTEGRATION_PASS_RATE"; "UNIT_PASS_RATE";
     "TOTAL_TESTS"; "LINE_COVERAGE"; "COVERAGE_DROP"; "P95_REGRESSION";
     "ERROR_RATE"; "CANARY_5XX_RATE"] ∧
  NoDup (rule <$> r.(rationale)) ∧
  (length r.(rationale) ≤ 9)%nat.
Proof.
  intros Hr. apply evaluate_release_Ok_inv in Hr as (Hrun & _ & _).
  apply run_catalog_sublist in Hrun.
  change (check_rule <$> catalog)
    with ["E2E_PASS_RATE"; "INTEGRATION_PASS_RATE"; "UNIT_PASS_RATE";
          "TOTAL_TESTS"; "LINE_COVERAGE"; "COVERAGE_DROP"; "P95_REGRESSION";
          "ERROR_RATE"; "CANARY_5XX_RATE"] in Hrun.
  split; [exact Hrun |]. split.
  - eapply sublist_NoDup; [| exact Hrun]. apply catalog_rules_distinct.
  - apply sublist_length in Hrun. now rewrite length_fmap in Hrun.
Qed.

Lemma rationale_in_check_order_witness :
  match
    evaluate_release
      [make_signal SignalType.CANARY "5xx_rate" 0.02;
       make_signal SignalType.TEST "total_tests" 100]
      None None settings
  with
  | Ok r =>
      rule <$> r.(rationale) = ["TOTAL_TESTS"; "CANARY_5XX_RATE"] ∧
      NoDup (rule <$> r.(rationale))
  | Raise _ => False
  end.
Proof.
  destruct (evaluate_release
              [make_signal SignalType.CANARY "5xx_rate" 0.02;
               make_signal SignalType.TEST "total_tests" 100]
              None None settings) as [r | e] eqn:Hr;
    [| vm_compute in Hr; discriminate Hr].
  destruct (rationale_in_check_order _ _ _ _ _ Hr) as (_ & Hnodup & _).
  split; [| exact Hnodup].
  vm_compute in Hr. injection Hr as <-. reflexivity.
Defined.

(** ** The decision *)

Lemma rationale_results_consistent_aux signals th w cfg r x :
  evaluate_release signals th w cfg = Ok r →
  x ∈ r.(rationale) → x.(passed) = false →
  x.(severity) = Severity.BLOCK ∨ x.(severity) = Severity.WARN.
Proof.
  intros Hr Hx Hp. apply evaluate_release_Ok_inv in Hr as (Hrun & _ & _).
  destruct (run_catalog_emitted _ _ _ _ Hrun x Hx)
    as (c & v & lim & Hc & _ & _ & ->).
  unfold check_result in *. simpl in *. rewrite Hp.
  now apply catalog_on_fail.
Qed.

Lemma decision_policy_monotone results score score' cfg :
  score <= score' →
  (Decision_rank (decision_policy results score cfg)
   ≤ Decision_rank (decision_policy results score' cfg))%nat.
Proof.
  intros Hle. unfold decision_policy.
  repeat case_decide; simpl; try lia; exfalso; intuition lra.
Qed.

(** Two evaluations of the same signals under the same thresholds and
    settings that differ in their weights: the one with the higher score
    never has the milder decision (APPROVE < WARN < BLOCK), whatever the
    two decision thresholds are. *)
Theorem decision_monotone_in_score signals th w w' cfg r r' :
  evaluate_release signals th w cfg = Ok r →
  evaluate_release signals th w' cfg = Ok r' →
  r.(risk_score) <= r'.(risk_score) →
  (Decision_rank r.(decision) ≤ Decision_rank r'.(decision))%nat.
Proof.
  intros Hr Hr' Hle.
  apply evaluate_release_Ok_inv in Hr as (Hrun & _ & ->).
  apply evaluate_release_Ok_inv in Hr' as (Hrun' & _ & ->).
  rewrite Hrun in Hrun'. injection Hrun' as <-.
  now apply decision_policy_monotone.
Qed.

(** A clean release with a 10% coverage drop, under the default weights
    and under weights that put everything on coverage. *)
Lemma decision_monotone_in_score_witness :
  match
    evaluate_release [make_signal SignalType.COVERAGE "line_coverage" 0.75]
      None None settings,
    evaluate_release [make_signal SignalType.COVERAGE "line_coverage" 0.75]
      None (Some (<["coverage" := 1.5]> DEFAULT_WEIGHTS)) settings
  with
  | Ok r, Ok r' =>
      (Decision_rank r.(decision) ≤ Decision_rank r'.(decision))%nat
  | _, _ => False
  end.
Proof.
  destruct (evaluate_release
              [make_signal SignalType.COVERAGE "line_coverage" 0.75]
              None None settings) as [r | e] eqn:Hr;
    [| vm_compute in Hr; discriminate Hr].
  destruct (evaluate_release
              [make_signal SignalType.COVERAGE "line_coverage" 0.75]
              None (Some (<["coverage" := 1.5]> DEFAULT_WEIGHTS)) settings)
    as [r' | e] eqn:Hr'; [| vm_compute in Hr'; discriminate Hr'].
  apply (decision_monotone_in_score _ _ _ _ _ _ _ Hr Hr').
  vm_compute in Hr, Hr'. injection Hr as <-. injection Hr' as <-.
  discriminate.
Defined.

Lemma approved_all_passed signals th w cfg r :
  evaluate_release signals th w cfg = Ok r →
  r.(decision) = Decision.APPROVE →
  Forall (λ x, x.(passed) = true) r.(rationale).
Proof.
  intros Hr Hd.
  assert (Hsev : ∀ x, x ∈ r.(rationale) → x.(passed) = false →
            x.(severity) = Severity.BLOCK ∨ x.(severity) = Severity.WARN).
  { intros x Hx. now apply (rationale_results_consistent_aux signals th w cfg r). }
  apply evaluate_release_Ok_inv in Hr as (_ & _ & Hpol).
  rewrite Hpol in Hd. unfold decision_policy in Hd.
  repeat case_decide; try discriminate.
  apply Forall_forall. intros x Hx.
  destruct (passed x) eqn:Hp; [reflexivity | exfalso].
  destruct (Hsev x Hx Hp) as [Hs | Hs].
  - apply H0. apply Exists_exists. exists x. now repeat split.
  - apply H1. left. apply Exists_exists. exists x. now repeat split.
Qed.

(** A release is approved exactly when every evaluated rule passed and the
    score is below both decision thresholds; so no approved release has a
    failed rule in its rationale. *)
Theorem approved_iff_all_passed signals th w cfg r :
  evaluate_release signals th w cfg = Ok r →
  (r.(decision) = Decision.APPROVE ↔
   Forall (λ x, x.(passed) = true) r.(rationale) ∧
   r.(risk_score) < cfg.(approve_threshold) ∧
   r.(risk_score) < cfg.(warn_threshold)).
Proof.
  intros Hr.
  assert (Hsev : ∀ x, x ∈ r.(rationale) → x.(passed) = false →
            x.(severity) = Severity.BLOCK ∨ x.(severity) = Severity.WARN).
  { intros x Hx. now apply (rationale_results_consistent_aux signals th w cfg r). }
  apply evaluate_release_Ok_inv in Hr as (_ & _ & ->).
  unfold decision_policy. split.
  - repeat case_decide; try discriminate. intros _.
    split; [| split; apply Qnot_le_lt; tauto].
    apply Forall_forall. intros x Hx.
    destruct (passed x) eqn:Hp; [reflexivity | exfalso].
    destruct (Hsev x Hx Hp) as [Hs | Hs].
    + apply H0. apply Exists_exists. exists x. now repeat split.
    + apply H1. left. apply Exists_exists. exists x. now repeat split.
  - intros (Hall & Ha & Hw).
    assert (Hnone : ∀ sev, ¬ Exists (failed_with sev) r.(rationale)).
    { intros sev (x & Hx & _ & Hp)%Exists_exists.
      rewrite Forall_forall in Hall. specialize (Hall x Hx). congruence. }
    rewrite decide_False by (now apply Qlt_not_le).
    rewrite decide_False by apply Hnone.
    rewrite decide_False; [reflexivity |].
    intros [H | H]; [now apply (Hnone Severity.WARN) |].
    revert H. now apply Qlt_not_le.
Qed.

(** The good release of the tests is approved, so all its rules passed. *)
Lemma approved_iff_all_passed_witness :
  match
    evaluate_release
      [make_signal SignalType.TEST "e2e_pass_rate" 1.0;
       make_signal SignalType.TEST "unit_pass_rate" 1.0;
       make_signal SignalType.TEST "total_tests" 100;
       make_signal SignalType.COVERAGE "line_coverage" 0.90]
      None None settings
  with
  | Ok r => Forall (λ x, x.(passed) = true) r.(rationale)
  | Raise _ => False
  end.
Proof.
  destruct (evaluate_release
              [make_signal SignalType.TEST "e2e_pass_rate" 1.0;
               make_signal SignalType.TEST "unit_pass_rate" 1.0;
               make_signal SignalType.TEST "total_tests" 100;
               make_signal SignalType.COVERAGE "line_coverage" 0.90]
              None None settings) as [r | e] eqn:Hr;
    [| vm_compute in Hr; discriminate Hr].
  destruct (approved_iff_all_passed _ _ _ _ _ Hr) as [H _].
  apply H. vm_compute in Hr. injection Hr as <-. reflexivity.
Defined.

(** ** Order of the key errors *)

Lemma run_catalog_first_missing signals t checks k :
  run_catalog checks signals t = Raise (KeyError k) →
  ∃ before c after,
    checks = before ++ c :: after ∧ c.(limit_key) = k ∧
    is_Some (get_signal_value signals c.(check_type) c.(check_signal)) ∧
    t !! k = None ∧
    ∀ c', c' ∈ before →
      is_Some (get_signal_value signals c'.(check_type) c'.(check_signal)) →
      is_Some (t !! c'.(limit_key)).
Proof.
  induction checks as [| c rest IH]; simpl; [discriminate |].
  destruct (get_signal_value signals (check_type c) (check_signal c))
    as [v |] eqn:Hv; simpl.
  - unfold getitem. destruct (t !! limit_key c) as [lim |] eqn:Hlim; simpl.
    + destruct (run_catalog rest signals t) as [emitted | e]; simpl;
        [discriminate |].
      intros [= ->].
      destruct (IH eq_refl) as (before & c0 & after & -> & H1 & H2 & H3 & H4).
      exists (c :: before), c0, after. repeat split; auto.
      intros c' [-> | Hc']%elem_of_cons Hpresent; [now rewrite Hlim | auto].
    + intros [= <-]. exists [], c, rest. rewrite Hv.
      repeat split; eauto. intros c' Hc'. inversion Hc'.
  - intros H.
    destruct (IH H) as (before & c0 & after & -> & H1 & H2 & H3 & H4).
    exists (c :: before), c0, after. repeat split; auto.
    intros c' [-> | Hc']%elem_of_cons Hpresent; [| auto].
    rewrite Hv in Hpresent. now destruct Hpresent.
Qed.

(** Threshold keys are read before any weight: when a present signal's
    limit key is missing from a supplied non-empty thresholds mapping,
    [evaluate_release] raises the key error of the first such check in
    check order, whatever the weights are, also when they are incomplete
    themselves. *)
Theorem threshold_key_error_comes_first signals t w cfg c :
  t ≠ ∅ →
  c ∈ catalog →
  is_Some (get_signal_value signals c.(check_type) c.(check_signal)) →
  t !! c.(limit_key) = None →
  ∃ before c0 after,
    catalog = before ++ c0 :: after ∧
    evaluate_release signals (Some t) w cfg
      = Raise (KeyError c0.(limit_key)) ∧
    is_Some (get_signal_value signals c0.(check_type) c0.(check_signal)) ∧
    t !! c0.(limit_key) = None ∧
    ∀ c', c' ∈ before →
      is_Some (get_signal_value signals c'.(check_type) c'.(check_signal)) →
      is_Some (t !! c'.(limit_key)).
Proof.
  intros Ht Hc Hpresent Hmissing.
  rewrite evaluate_release_policy, all_gates_catalog, (py_or_Some t _ Ht).
  destruct (run_catalog catalog signals t) as [results | [k]] eqn:Hrun.
  - exfalso.
    assert (Hok : is_Ok (run_catalog catalog signals t) = true)
      by now rewrite Hrun.
    rewrite run_catalog_Ok_iff in Hok.
    destruct (Hok c Hc Hpresent) as [lim Hlim]. congruence.
  - destruct (run_catalog_first_missing _ _ _ _ Hrun)
      as (before & c0 & after & Hsplit & <- & H2 & H3 & H4).
    exists before, c0, after. now repeat split.
Qed.

(** Only the unit limit is configured, both pass rates are reported and the
    weights are empty of the keys in use: the error names the e2e limit. *)
Lemma threshold_key_error_comes_first_witness :
  evaluate_release
    [make_signal SignalType.TEST "unit_pass_rate" 1.0;
     make_signal SignalType.TEST "e2e_pass_rate" 1.0]
    (Some {["unit_pass_rate_min" := 0.9]})
    (Some {["deps" := 1]}) settings
  = Raise (KeyError "e2e_pass_rate_min").
Proof.
  destruct (threshold_key_error_comes_first
              [make_signal SignalType.TEST "unit_pass_rate" 1.0;
               make_signal SignalType.TEST "e2e_pass_rate" 1.0]
              {["unit_pass_rate_min" := 0.9]}
              (Some {["deps" := 1]}) settings
              {| check_rule := "E2E_PASS_RATE"; check_type := SignalType.TEST;
                 check_signal := "e2e_pass_rate"; comparator := AtLeast;
                 limit_key := "e2e_pass_rate_min"; on_fail := Severity.BLOCK;
                 check_head := "E2E pass rate"; check_tail := "threshold" |})
    as (before & c0 & after & _ & Hraise & _).
  - apply insert_non_empty.
  - apply list_elem_of_here.
  - eexists. reflexivity.
  - reflexivity.
  - assert (Hk : @Raise EvaluationResult (KeyError "e2e_pass_rate_min")
                 = Raise (KeyError c0.(limit_key)))
      by (rewrite <- Hraise; vm_compute; reflexivity).
    injection Hk as Hk. rewrite Hraise, <- Hk. reflexivity.
Defined.

(** * The presentation layer *)

(** ** Rounding *)

Lemma round_half_even_near x :
  - (1 # 2) <= inject_Z (round_half_even x) - x <= 1 # 2.
Proof.
  unfold round_half_even.
  pose proof (Qfloor_le x) as Hlo. pose proof (Qlt_floor x) as Hhi.
  rewrite inject_Z_plus in Hhi. change (inject_Z 1) with 1 in Hhi.
  destruct (Qcompare_spec (x - inject_Z (Qfloor x)) (1 # 2)) as [He | Hl | Hg].
  - destruct (Z.even (Qfloor x)).
    + lra.
    + rewrite inject_Z_plus. change (inject_Z 1) with 1. lra.
  - lra.
  - rewrite inject_Z_plus. change (inject_Z 1) with 1. lra.
Qed.

Lemma py_round2_near x : - (1 # 200) <= py_round2 x - x <= 1 # 200.
Proof.
  unfold py_round2. pose proof (round_half_even_near (x * 100)) as H.
  set (n := inject_Z (round_half_even (x * 100))) in *. clearbody n.
  unfold Qdiv. change (/ 100) with (1 # 100). lra.
Qed.

(** ** [to_dict] *)

Lemma to_dict_filter results :
  RuleResult_to_dict <$> List.filter (λ r, negb r.(passed)) results =
  List.filter (λ d, negb d.(RuleResultDict.passed))
    (RuleResult_to_dict <$> results).
Proof.
  induction results as [| r rest IH]; [reflexivity |].
  simpl. destruct (passed r); simpl; [exact IH | f_equal; exact IH].
Qed.

Lemma no_failure_to_show results :
  Forall (λ x, x.(passed) = true) results →
  List.filter (λ d, negb d.(RuleResultDict.passed))
    (RuleResult_to_dict <$> results) = [].
Proof.
  induction 1 as [| x rest Hx _ IH]; [reflexivity |].
  simpl. rewrite Hx. exact IH.
Qed.

(** What [EvaluationResult.to_dict] shows of an evaluation: a risk score
    within 0.005 of the computed one, and as rationale the failed results
    only, in their order, each with severity "BLOCK" or "WARN" and never
    "INFO"; for an approved release the rationale shown is empty. *)
Theorem to_dict_shows_failures_only signals th w cfg r :
  evaluate_release signals th w cfg = Ok r →
  let shown := EvaluationResult_to_dict r in
  - (1 # 200) <= shown.(EvaluationResultDict.risk_score) - r.(risk_score)
    <= 1 # 200 ∧
  shown.(EvaluationResultDict.rationale)
    = List.filter (λ d, negb d.(RuleResultDict.passed))
        (RuleResult_to_dict <$> r.(rationale)) ∧
  Forall (λ d, d.(RuleResultDict.passed) = false ∧
               (d.(RuleResultDict.severity) = "BLOCK" ∨
                d.(RuleResultDict.severity) = "WARN"))
    shown.(EvaluationResultDict.rationale) ∧
  (r.(decision) = Decision.APPROVE →
   shown.(EvaluationResultDict.decision) = "APPROVE" ∧
   shown.(EvaluationResultDict.rationale) = []).
Proof.
  intros Hr shown. subst shown. unfold EvaluationResult_to_dict. simpl.
  split; [apply py_round2_near |].
  split; [apply to_dict_filter |].
  split.
  - apply Forall_forall. intros d Hd.
    apply list_elem_of_fmap in Hd as (x & -> & Hx).
    apply list_elem_of_In, filter_In in Hx as [Hx Hp].
    apply list_elem_of_In in Hx. apply negb_true_iff in Hp.
    split; [exact Hp |]. simpl.
    destruct (rationale_results_consistent_aux _ _ _ _ _ x Hr Hx Hp)
      as [-> | ->]; [now left | now right].
  - intros Hd. rewrite Hd. split; [reflexivity |].
    apply (approved_all_passed _ _ _ _ _ Hr) in Hd.
    induction Hd as [| x rest Hx _ IH]; [reflexivity |].
    simpl. rewrite Hx. exact IH.
Qed.

(** The bad release of the tests: of its two results only the failed e2e
    rule is shown. *)
Lemma to_dict_shows_failures_only_witness :
  match
    evaluate_release
      [make_signal SignalType.TEST "e2e_pass_rate" 0.50;
       make_signal SignalType.TEST "total_tests" 100]
      None None settings
  with
  | Ok r =>
      RuleResultDict.rule <$>
        (EvaluationResult_to_dict r).(EvaluationResultDict.rationale)
      = ["E2E_PASS_RATE"] ∧
      Forall (λ d, d.(RuleResultDict.passed) = false ∧
                   (d.(RuleResultDict.severity) = "BLOCK" ∨
                    d.(RuleResultDict.severity) = "WARN"))
        (EvaluationResult_to_dict r).(EvaluationResultDict.rationale)
  | Raise _ => False
  end.
Proof.
  destruct (evaluate_release
              [make_signal SignalType.TEST "e2e_pass_rate" 0.50;
               make_signal SignalType.TEST "total_tests" 100]
              None None settings) as [r | e] eqn:Hr;
    [| vm_compute in Hr; discriminate Hr].
  destruct (to_dict_shows_failures_only _ _ _ _ _ Hr) as (_ & _ & Hall & _).
  split; [| exact Hall].
  vm_compute in Hr. injection Hr as <-. reflexivity.
Defined.

(** ** The evaluate endpoint *)

(** The endpoint answers 404 for an unknown release and 400 for a release
    without signals, and persists nothing then.  For a release with at
    least one signal the outcome follows that of [evaluate_release] under
    the default thresholds and weights.  An exception of the evaluation
    leaves the endpoint and nothing is persisted.  When the evaluation
    returns a result, the row that is persisted carries the computed score,
    at most 95, and every rule result; the response carries the same
    decision, the score rounded to within 0.005, the failed results only,
    and the report address of the release; an APPROVE response has an empty
    rationale. *)
Theorem evaluate_endpoint_outcomes release_id release cfg :
  match release with
  | None =>
      evaluate release_id release cfg
      = Rejected (HTTPError 404 "Release not found")
  | Some [] =>
      evaluate release_id release cfg
      = Rejected (HTTPError 400
          "No signals found for release. Ingest signals before evaluating.")
  | Some signals =>
      match evaluate_release signals None None cfg with
      | Raise e => evaluate release_id release cfg = Failed e
      | Ok r =>
          ∃ persisted response,
            evaluate release_id release cfg = Responded persisted response ∧
            persisted.(Evaluation.release_id) = release_id ∧
            persisted.(Evaluation.decision) = r.(decision) ∧
            persisted.(Evaluation.risk_score) = r.(risk_score) ∧
            persisted.(Evaluation.risk_score) <= 95 ∧
            persisted.(Evaluation.rationale_json)
              = RuleResult_to_dict <$> r.(rationale) ∧
            response.(EvaluationResponse.decision)
              = persisted.(Evaluation.decision) ∧
            - (1 # 200)
              <= response.(EvaluationResponse.risk_score)
                 - persisted.(Evaluation.risk_score)
              <= 1 # 200 ∧
            response.(EvaluationResponse.rationale)
              = List.filter (λ d, negb d.(RuleResultDict.passed))
                  persisted.(Evaluation.rationale_json) ∧
            (response.(EvaluationResponse.decision) = Decision.APPROVE →
             response.(EvaluationResponse.rationale) = []) ∧
            response.(EvaluationResponse.report_url)
              = String.append "/releases/"
                  (String.append release_id "/report")
      end
  end.
Proof.
  destruct release as [[| s rest] |]; [reflexivity | | reflexivity].
  unfold evaluate.
  destruct (evaluate_release (s :: rest) None None cfg) as [r | e] eqn:Hr;
    [| reflexivity].
  eexists. eexists. split; [reflexivity |]. simpl.
  repeat split.
  - destruct (default_score (s :: rest)) as (score & Hscore & Hval).
    destruct (risks_le_1 (s :: rest)) as (Ht & Hc & Hp & Hca).
    apply evaluate_release_Ok_inv in Hr as (_ & Hs & _).
    rewrite Hs in Hscore. injection Hscore as <-.
    rewrite Hval. lra.
  - apply py_round2_near.
  - apply py_round2_near.
  - apply to_dict_filter.
  - intros Hd. apply (approved_all_passed _ _ _ _ _ Hr) in Hd.
    rewrite to_dict_filter. now apply no_failure_to_show.
Qed.

(** A release with a full e2e pass rate and 100 tests: the endpoint
    responds, with APPROVE and an empty rationale. *)
Lemma evaluate_endpoint_outcomes_witness :
  ∃ persisted response,
    evaluate "r1"
      (Some [make_signal SignalType.TEST "e2e_pass_rate" 1.0;
             make_signal SignalType.TEST "total_tests" 100])
      settings = Responded persisted response ∧
    persisted.(Evaluation.release_id) = "r1" ∧
    persisted.(Evaluation.risk_score) <= 95 ∧
    response.(EvaluationResponse.decision) = Decision.APPROVE ∧
    response.(EvaluationResponse.rationale) = [] ∧
    response.(EvaluationResponse.report_url) = "/releases/r1/report".
Proof.
  pose proof (evaluate_endpoint_outcomes "r1"
                (Some [make_signal SignalType.TEST "e2e_pass_rate" 1.0;
                       make_signal SignalType.TEST "total_tests" 100])
                settings) as H.
  cbv iota beta in H.
  destruct (evaluate_release
              [make_signal SignalType.TEST "e2e_pass_rate" 1.0;
               make_signal SignalType.TEST "total_tests" 100]
              None None settings) as [r | e] eqn:Hr;
    [| vm_compute in Hr; discriminate Hr].
  destruct H as (persisted & response & Hev & Hid & Hd & _ & Hle & _ & Hrd
                 & _ & _ & Happ & Hurl).
  assert (Hdec : response.(EvaluationResponse.decision) = Decision.APPROVE).
  { rewrite Hrd, Hd. vm_compute in Hr. injection Hr as <-. reflexivity. }
  exists persisted, response.
  split; [exact Hev |]. split; [exact Hid |]. split; [exact Hle |].
  split; [exact Hdec |]. split; [exact (Happ Hdec) | exact Hurl].
Defined.

(** * Gates and risks under the default thresholds *)

Lemma Qle_bool_iff_false a b : Qle_bool a b = false → b < a.
Proof.
  intros H. apply Qnot_le_lt. intros Hle.
  apply Qle_bool_iff in Hle. congruence.
Qed.

(** The default limits of the performance and canary gates are the amounts
    at which the matching risk term saturates.  So whenever, under the
    default thresholds, the rationale has a failed P95_REGRESSION or
    ERROR_RATE result the performance risk is 1, and whenever it has a
    failed CANARY_5XX_RATE result the canary risk is 1. *)
Theorem failed_gate_saturates_risk signals w cfg r x :
  evaluate_release signals None w cfg = Ok r →
  x ∈ r.(rationale) →
  x.(passed) = false →
  (x.(rule) = "P95_REGRESSION" ∨ x.(rule) = "ERROR_RATE" →
   compute_perf_risk signals == 1) ∧
  (x.(rule) = "CANARY_5XX_RATE" → compute_canary_risk signals == 1).
Proof.
  intros Hr Hx Hp. apply evaluate_release_Ok_inv in Hr as (Hrun & _ & _).
  destruct (run_catalog_emitted _ _ _ _ Hrun x Hx)
    as (c & v & lim & Hc & Hv & Hlim & ->).
  unfold check_result in Hp. simpl in Hp. simpl.
  assert (Hdiv : ∀ a b, 0 < b → b < a → 1 < a / b).
  { intros a b Hb Hab. apply Qlt_shift_div_l; lra. }
  unfold catalog in Hc.
  repeat (apply elem_of_cons in Hc as [-> | Hc];
          [split; [intros [[=] | [=]] | intros [=]] |]);
    [| | | inversion Hc];
    simpl in Hv, Hlim, Hp; vm_compute in Hlim; injection Hlim as <-;
    apply Qle_bool_iff_false in Hp.
  - unfold compute_perf_risk. rewrite Hv.
    pose proof (Hdiv v 0.15 eq_refl Hp).
    destruct (get_signal_value signals SignalType.PERF "error_rate");
      cbn [append_if_present app]; unfold py_max; cbn [fold_left];
      split_minmax; lra.
  - unfold compute_perf_risk. rewrite Hv.
    pose proof (Hdiv v 0.01 eq_refl Hp).
    destruct (get_signal_value signals SignalType.PERF "p95_regression");
      cbn [append_if_present app]; unfold py_max; cbn [fold_left];
      split_minmax; lra.
  - unfold compute_canary_risk. rewrite Hv.
    pose proof (Hdiv v 0.01 eq_refl Hp).
    destruct (get_signal_value signals SignalType.CANARY "p95_regression");
      cbn [append_if_present app]; unfold py_max; cbn [fold_left];
      split_minmax; lra.
Qed.

(** A canary with 2% of 5xx answers. *)
Lemma failed_gate_saturates_risk_witness :
  compute_canary_risk [make_signal SignalType.CANARY "5xx_rate" 0.02] == 1.
Proof.
  destruct (evaluate_release [make_signal SignalType.CANARY "5xx_rate" 0.02]
              None None settings) as [r | e] eqn:Hr;
    [| vm_compute in Hr; discriminate Hr].
  assert (Hrat : ∃ x, r.(rationale) = [x] ∧ x.(passed) = false ∧
                      x.(rule) = "CANARY_5XX_RATE").
  { vm_compute in Hr. injection Hr as <-. eexists. now repeat split. }
  destruct Hrat as (x & Hx & Hp & Hrule).
  apply (failed_gate_saturates_risk _ None settings r x Hr);
    [rewrite Hx; apply list_elem_of_here | exact Hp | exact Hrule].
Defined.

(** * The JUnit collector *)

Section Junit.

Implicit Types (testsuites : list TestSuite.t) (c : Counters).

(** The counters after the loop, from any starting counters. *)
Lemma count_suites_app testsuites1 testsuites2 c :
  fold_left count_suite (testsuites1 ++ testsuites2) c =
  fold_left count_suite testsuites2 (fold_left count_suite testsuites1 c).
Proof. apply fold_left_app. Qed.

Lemma collect_failed_app failed_tests testcases :
  collect_failed failed_tests testcases =
  failed_tests ++ collect_failed [] testcases.
Proof.
  unfold collect_failed. revert failed_tests.
  induction testcases as [| tc rest IH]; intros failed_tests; simpl.
  - now rewrite app_nil_r.
  - destruct (TestCase.failure tc || TestCase.error tc).
    + rewrite IH, (IH [_]). now rewrite <- app_assoc.
    + apply IH.
Qed.

(** Counting from [c] adds what counting from zero gives. *)
Lemma count_suites_shift testsuites c :
  let z := {| c_total := 0; c_failed := 0; c_skipped := 0; c_errors := 0;
              c_duration := 0.0; c_failed_tests := [] |} in
  let r := fold_left count_suite testsuites c in
  let r0 := fold_left count_suite testsuites z in
  r.(c_total) = (c.(c_total) + r0.(c_total))%Z ∧
  r.(c_failed) = (c.(c_failed) + r0.(c_failed))%Z ∧
  r.(c_skipped) = (c.(c_skipped) + r0.(c_skipped))%Z ∧
  r.(c_errors) = (c.(c_errors) + r0.(c_errors))%Z ∧
  r.(c_duration) == c.(c_duration) + r0.(c_duration) ∧
  r.(c_failed_tests) = c.(c_failed_tests) ++ r0.(c_failed_tests).
Proof.
  cbv zeta. revert c.
  induction testsuites as [| ts rest IH] using rev_ind; intros c.
  - simpl. repeat split; try lia; [ring | now rewrite app_nil_r].
  - rewrite !fold_left_app. simpl.
    destruct (IH c) as (H1 & H2 & H3 & H4 & H5 & H6).
    rewrite H1, H2, H3, H4, H5, H6.
    repeat split; try lia; [ring |].
    rewrite collect_failed_app.
    rewrite (collect_failed_app (c_failed_tests (fold_left _ rest _))).
    now rewrite <- app_assoc.
Qed.

End Junit.

(** Parsing a report made of two groups of test suites gives the sums
    of the two summaries: totals, failures, skips, errors, passes and
    duration add up, and the failed tests are listed one group after the
    other.  The pass rate is that of the pooled counts. *)
Theorem parse_junit_xml_app testsuites1 testsuites2 :
  let s1 := parse_junit_xml testsuites1 in
  let s2 := parse_junit_xml testsuites2 in
  let s := parse_junit_xml (testsuites1 ++ testsuites2) in
  s.(TestSummary.total)
    = (s1.(TestSummary.total) + s2.(TestSummary.total))%Z ∧
  s.(TestSummary.failed)
    = (s1.(TestSummary.failed) + s2.(TestSummary.failed))%Z ∧
  s.(TestSummary.skipped)
    = (s1.(TestSummary.skipped) + s2.(TestSummary.skipped))%Z ∧
  s.(TestSummary.errors)
    = (s1.(TestSummary.errors) + s2.(TestSummary.errors))%Z ∧
  s.(TestSummary.passed)
    = (s1.(TestSummary.passed) + s2.(TestSummary.passed))%Z ∧
  s.(TestSummary.duration_seconds)
    == s1.(TestSummary.duration_seconds) + s2.(TestSummary.duration_seconds) ∧
  s.(TestSummary.failed_tests)
    = s1.(TestSummary.failed_tests) ++ s2.(TestSummary.failed_tests) ∧
  ((0 < s.(TestSummary.total))%Z →
   s.(TestSummary.pass_rate) * inject_Z s.(TestSummary.total)
   == inject_Z (s1.(TestSummary.passed) + s2.(TestSummary.passed))).
Proof.
  cbv zeta. unfold parse_junit_xml. cbn [TestSummary.total TestSummary.failed
    TestSummary.skipped TestSummary.errors TestSummary.passed
    TestSummary.duration_seconds TestSummary.failed_tests
    TestSummary.pass_rate].
  rewrite count_suites_app.
  set (z := {| c_total := 0; c_failed := 0; c_skipped := 0; c_errors := 0;
               c_duration := 0.0; c_failed_tests := [] |}).
  pose proof (count_suites_shift testsuites2 (fold_left count_suite testsuites1 z))
    as H.
  cbv zeta in H. fold z in H.
  set (a := fold_left count_suite testsuites1 z) in *.
  set (b := fold_left count_suite testsuites2 z) in *.
  set (ab := fold_left count_suite testsuites2 a) in *.
  clearbody a b ab. destruct H as (H1 & H2 & H3 & H4 & H5 & H6).
  rewrite H1, H2, H3, H4, H6.
  repeat split; try lia; [exact H5 |].
  intros Hpos. apply Z.ltb_lt in Hpos. rewrite Hpos.
  apply Z.ltb_lt in Hpos.
  assert (Hne : ¬ inject_Z (c_total a + c_total b) == 0).
  { intros H. unfold Qeq in H. simpl in H. lia. }
  rewrite Qmult_comm, Qmult_div_r by exact Hne.
  unfold Qeq. simpl. lia.
Qed.

(** Two suites of ten and five tests. *)
Lemma parse_junit_xml_app_witness :
  TestSummary.total
    (parse_junit_xml
       ([{| TestSuite.tests := Some 10%Z; TestSuite.failures := Some 1%Z;
            TestSuite.skipped := None; TestSuite.errors := None;
            TestSuite.time := Some 1.5; TestSuite.testcases := [] |}]
        ++ [{| TestSuite.tests := Some 5%Z; TestSuite.failures := None;
               TestSuite.skipped := Some 1%Z; TestSuite.errors := None;
               TestSuite.time := None; TestSuite.testcases := [] |}]))
  = 15%Z.
Proof.
  destruct (parse_junit_xml_app
    [{| TestSuite.tests := Some 10%Z; TestSuite.failures := Some 1%Z;
        TestSuite.skipped := None; TestSuite.errors := None;
        TestSuite.time := Some 1.5; TestSuite.testcases := [] |}]
    [{| TestSuite.tests := Some 5%Z; TestSuite.failures := None;
        TestSuite.skipped := Some 1%Z; TestSuite.errors := None;
        TestSuite.time := None; TestSuite.testcases := [] |}]) as (H & _).
  exact (eq_trans H eq_refl).
Defined.

Lemma pass_rate_no_tests testsuites :
  (TestSummary.total (parse_junit_xml testsuites) ≤ 0)%Z →
  TestSummary.pass_rate (parse_junit_xml testsuites) = 0.0.
Proof.
  unfold parse_junit_xml. simpl. intros H.
  destruct (Z.ltb_spec 0 (c_total (fold_left count_suite testsuites
    {| c_total := 0; c_failed := 0; c_skipped := 0; c_errors := 0;
       c_duration := 0.0; c_failed_tests := [] |}))); [lia | reflexivity].
Qed.

Lemma pass_rate_some_tests testsuites :
  (0 < TestSummary.total (parse_junit_xml testsuites))%Z →
  TestSummary.pass_rate (parse_junit_xml testsuites)
  = inject_Z (TestSummary.passed (parse_junit_xml testsuites))
    / inject_Z (TestSummary.total (parse_junit_xml testsuites)).
Proof.
  unfold parse_junit_xml. simpl. intros H.
  apply Z.ltb_lt in H. now rewrite H.
Qed.

Lemma count_suites_invariant testsuites c :
  Forall (λ ts,
    (0 ≤ get ts.(TestSuite.failures) 0 ∧ 0 ≤ get ts.(TestSuite.skipped) 0 ∧
     0 ≤ get ts.(TestSuite.errors) 0 ∧
     get ts.(TestSuite.failures) 0 + get ts.(TestSuite.skipped) 0
       + get ts.(TestSuite.errors) 0 ≤ get ts.(TestSuite.tests) 0)%Z)
    testsuites →
  (0 ≤ c.(c_failed) ∧ 0 ≤ c.(c_skipped) ∧ 0 ≤ c.(c_errors) ∧
   c.(c_failed) + c.(c_skipped) + c.(c_errors) ≤ c.(c_total))%Z →
  let r := fold_left count_suite testsuites c in
  (0 ≤ r.(c_failed) ∧ 0 ≤ r.(c_skipped) ∧ 0 ≤ r.(c_errors) ∧
   r.(c_failed) + r.(c_skipped) + r.(c_errors) ≤ r.(c_total))%Z.
Proof.
  intros Hall. revert c. induction Hall as [| ts rest Hts _ IH]; intros c Hc.
  - exact Hc.
  - simpl. apply IH. unfold count_suite. simpl. lia.
Qed.

(** The pass rate of a summary.  Without any test it is 0.0 and nothing is
    divided.  When every suite reports non-negative failures, skips and
    errors that do not exceed its tests, the passed count lies between 0
    and the total and the pass rate between 0 and 1; and the rate is 1
    only if there are tests and none of them failed, was skipped or ended
    in an error: a skipped test lowers the pass rate like a failed one. *)
Theorem pass_rate_range testsuites :
  let s := parse_junit_xml testsuites in
  ((s.(TestSummary.total) ≤ 0)%Z → s.(TestSummary.pass_rate) = 0.0) ∧
  (Forall (λ ts,
     (0 ≤ get ts.(TestSuite.failures) 0 ∧ 0 ≤ get ts.(TestSuite.skipped) 0 ∧
      0 ≤ get ts.(TestSuite.errors) 0 ∧
      get ts.(TestSuite.failures) 0 + get ts.(TestSuite.skipped) 0
        + get ts.(TestSuite.errors) 0 ≤ get ts.(TestSuite.tests) 0)%Z)
     testsuites →
   (0 ≤ s.(TestSummary.passed) ≤ s.(TestSummary.total))%Z ∧
   0 <= s.(TestSummary.pass_rate) <= 1 ∧
   (s.(TestSummary.pass_rate) == 1 ↔
    (0 < s.(TestSummary.total) ∧ s.(TestSummary.failed) = 0 ∧
     s.(TestSummary.skipped) = 0 ∧ s.(TestSummary.errors) = 0)%Z)).
Proof.
  cbv zeta. split; [apply pass_rate_no_tests |].
  intros Hall.
  pose proof (pass_rate_no_tests testsuites) as Hzero.
  pose proof (pass_rate_some_tests testsuites) as Hsome.
  pose proof (count_suites_invariant testsuites
    {| c_total := 0; c_failed := 0; c_skipped := 0; c_errors := 0;
       c_duration := 0.0; c_failed_tests := [] |} Hall) as Hinv.
  cbv zeta in Hinv. unfold parse_junit_xml in *.
  set (c := fold_left count_suite testsuites _) in *. clearbody c.
  simpl in *. specialize (Hinv ltac:(lia)).
  split; [lia |].
  destruct (Z.ltb_spec 0 (c_total c)) as [Hpos | Hneg].
  - assert (Hq : 0 < inject_Z (c_total c)).
    { unfold Qlt. simpl. lia. }
    assert (Hp0 : 0 <= inject_Z (c_total c - c_failed c - c_skipped c
                                 - c_errors c)).
    { unfold Qle. simpl. lia. }
    assert (Hp1 : inject_Z (c_total c - c_failed c - c_skipped c - c_errors c)
                  <= inject_Z (c_total c)).
    { unfold Qle. simpl. lia. }
    split; [split |].
    + apply Qle_shift_div_l; [exact Hq | lra].
    + apply Qle_shift_div_r; [exact Hq | lra].
    + split.
      * intros H1. apply Qmult_inj_r with (z := inject_Z (c_total c)) in H1;
          [| lra].
        unfold Qdiv in H1.
        rewrite <- Qmult_assoc, (Qmult_comm (/ _)), Qmult_inv_r in H1 by lra.
        unfold Qeq in H1. simpl in H1. lia.
      * intros (_ & Hf & Hs & He). rewrite Hf, Hs, He.
        replace (c_total c - 0 - 0 - 0)%Z with (c_total c) by lia.
        unfold Qdiv. apply Qmult_inv_r. lra.
  - split; [split; discriminate |].
    split; [discriminate | lia].
Qed.

(** Ten tests, one failed and one skipped: a pass rate of 0.8. *)
Lemma pass_rate_range_witness :
  0 <= TestSummary.pass_rate
         (parse_junit_xml
            [{| TestSuite.tests := Some 10%Z; TestSuite.failures := Some 1%Z;
                TestSuite.skipped := Some 1%Z; TestSuite.errors := None;
                TestSuite.time := Some 1.5; TestSuite.testcases := [] |}])
  <= 1.
Proof.
  destruct (pass_rate_range
    [{| TestSuite.tests := Some 10%Z; TestSuite.failures := Some 1%Z;
        TestSuite.skipped := Some 1%Z; TestSuite.errors := None;
        TestSuite.time := Some 1.5; TestSuite.testcases := [] |}])
    as [_ H].
  destruct H as (_ & Hrange & _); [| exact Hrange].
  apply List.Forall_cons; [simpl; lia | apply List.Forall_nil].
Defined.

(** * From a JUnit report to a decision *)

Lemma default_threshold_values :
  DEFAULT_THRESHOLDS !! "e2e_pass_rate_min" = Some 0.98 ∧
  DEFAULT_THRESHOLDS !! "integration_pass_rate_min" = Some 0.95 ∧
  DEFAULT_THRESHOLDS !! "unit_pass_rate_min" = Some 0.95 ∧
  DEFAULT_THRESHOLDS !! "total_tests_min" = Some 1.
Proof. repeat split; reflexivity. Qed.

(** The decision for a release that has the signals of one JUnit report
    and nothing else. *)
Lemma junit_decision (pr limit risk : Q) (total : Z) results score :
  ((total ≤ 0)%Z → pr = 0.0) →
  0 < limit →
  risk <= 1 → (limit <= pr → risk <= 0.1) →
  score == 100 * (0.35 * risk + 0.10 * 0.0 + 0.25 * 0.0 + 0.25 * 0.0) →
  (Exists (failed_with Severity.BLOCK) results ↔
   ¬ limit <= pr ∨ ¬ 1 <= inject_Z total) →
  ¬ Exists (failed_with Severity.WARN) results →
  decision_policy results score settings
  = if decide (limit <= pr) then Decision.APPROVE else Decision.BLOCK.
Proof.
  intros Hzero Hl0 Hr1 Hr Hscore Hblock Hwarn.
  assert (Htotal : limit <= pr → 1 <= inject_Z total).
  { intros Hpr. destruct (Z_le_gt_dec total 0) as [Hle | Hgt].
    - rewrite (Hzero Hle) in Hpr. lra.
    - unfold Qle. simpl. lia. }
  unfold decision_policy, settings. simpl.
  rewrite decide_False by lra.
  destruct (decide (limit <= pr)) as [Hpr | Hpr].
  - rewrite decide_False by (rewrite Hblock; intros [H | H]; tauto).
    rewrite decide_False; [reflexivity |].
    specialize (Hr Hpr). intros [H | H]; [tauto | lra].
  - rewrite decide_True; [reflexivity |]. apply Hblock. now left.
Qed.

Lemma failed_with_check_result sev c v lim :
  failed_with sev (check_result c v lim) ↔
  c.(on_fail) = sev ∧ holds c.(comparator) v lim = false.
Proof.
  unfold failed_with, check_result. simpl.
  destruct (holds (comparator c) v lim); split; intros [H1 H2];
    try discriminate; now split.
Qed.

(** Closes one case of the theorem below: [key] is the pass-rate signal of
    the report, [c] its check. *)
Ltac junit_case pr total duration Hzero key dkey c lim term :=
  set (signals :=
         [ {| type := SignalType.TEST; name := key;
              value_num := Some pr; value_text := None |};
           {| type := SignalType.TEST; name := "total_tests";
              value_num := Some (inject_Z total); value_text := None |};
           {| type := SignalType.TEST; name := dkey;
              value_num := Some duration; value_text := None |} ]);
  exists signals;
  assert (Hgates : all_gates signals None
                   = Ok [check_result c pr lim;
                         check_result
                           {| check_rule := "TOTAL_TESTS";
                              check_type := SignalType.TEST;
                              check_signal := "total_tests";
                              comparator := AtLeast;
                              limit_key := "total_tests_min";
                              on_fail := Severity.BLOCK;
                              check_head := "Total tests executed:";
                              check_tail := "minimum" |}
                           (inject_Z total) 1])
    by (rewrite all_gates_catalog; reflexivity);
  destruct (default_score signals) as (score & Hscore & Hval);
  assert (Htest : compute_test_risk signals
                  = py_min 1.0 (py_sum [term] / py_len [term]))
    by reflexivity;
  change (compute_coverage_risk signals) with 0.0 in Hval;
  change (compute_perf_risk signals) with 0.0 in Hval;
  change (compute_canary_risk signals) with 0.0 in Hval;
  eexists; split; [reflexivity |];
  split;
  [ rewrite evaluate_release_policy, Hgates, Hscore; reflexivity |];
  cbn [decision];
  apply (junit_decision pr lim (compute_test_risk signals) total);
  [ exact Hzero
  | reflexivity
  | apply (risks_le_1 signals)
  | intros Hpr; rewrite Htest; change (py_len [term]) with 1;
    unfold py_sum; cbn [fold_left];
    assert (Hone : (0 + term) / 1 == 0 + term) by field;
    split_minmax; lra
  | exact Hval
  | rewrite !Exists_cons, Exists_nil, !failed_with_check_result;
    cbn [on_fail comparator holds];
    rewrite <- !not_true_iff_false, !Qle_bool_iff; tauto
  | rewrite !Exists_cons, Exists_nil, !failed_with_check_result;
    cbn [on_fail]; intros [[[=] _] | [[[=] _] | []]] ].

(** A release whose only signals are those of one JUnit report, ingested
    as unit, integration or e2e results and evaluated under the defaults,
    is approved when the pass rate of the report reaches the limit of its
    kind (0.95; 0.98 for e2e) and blocked otherwise; it is never only
    warned.  All three payloads of [to_signals] are accepted, and the
    duration signal has no effect. *)
Theorem junit_release_decision testsuites test_type limit :
  (test_type, limit)
    ∈ [("unit"%string, 0.95); ("integration"%string, 0.95);
       ("e2e"%string, 0.98)] →
  let summary := parse_junit_xml testsuites in
  ∃ signals r,
    mapM create_signal (to_signals summary test_type) = Some signals ∧
    evaluate_release signals None None settings = Ok r ∧
    r.(decision)
    = if decide (limit <= summary.(TestSummary.pass_rate))
      then Decision.APPROVE else Decision.BLOCK.
Proof.
  intros Hin summary.
  pose proof (pass_rate_no_tests testsuites) as Hzero.
  fold summary in Hzero.
  destruct summary
    as [total passed failed skipped errors duration pr failed_tests].
  cbn [TestSummary.total TestSummary.pass_rate] in *.
  unfold to_signals. cbn [TestSummary.total TestSummary.pass_rate
    TestSummary.passed TestSummary.failed TestSummary.skipped
    TestSummary.duration_seconds].
  repeat (apply elem_of_cons in Hin as [[= -> ->] | Hin]);
    [| | | inversion Hin].
  - junit_case pr total duration Hzero "unit_pass_rate"
      "unit_duration_seconds"
      {| check_rule := "UNIT_PASS_RATE"; check_type := SignalType.TEST;
         check_signal := "unit_pass_rate"; comparator := AtLeast;
         limit_key := "unit_pass_rate_min"; on_fail := Severity.BLOCK;
         check_head := "Unit pass rate"; check_tail := "threshold" |}
      0.95 (1 - pr).
  - junit_case pr total duration Hzero "integration_pass_rate"
      "integration_duration_seconds"
      {| check_rule := "INTEGRATION_PASS_RATE"; check_type := SignalType.TEST;
         check_signal := "integration_pass_rate"; comparator := AtLeast;
         limit_key := "integration_pass_rate_min"; on_fail := Severity.BLOCK;
         check_head := "Integration pass rate"; check_tail := "threshold" |}
      0.95 (1 - pr).
  - junit_case pr total duration Hzero "e2e_pass_rate"
      "e2e_duration_seconds"
      {| check_rule := "E2E_PASS_RATE"; check_type := SignalType.TEST;
         check_signal := "e2e_pass_rate"; comparator := AtLeast;
         limit_key := "e2e_pass_rate_min"; on_fail := Severity.BLOCK;
         check_head := "E2E pass rate"; check_tail := "threshold" |}
      0.98 ((1 - pr) * 1.5).
Qed.

(** A report of twenty tests with one failure, ingested as unit results:
    the pass rate is 0.95 and the release is approved. *)
Lemma junit_release_decision_witness :
  ∃ signals r,
    mapM create_signal
      (to_signals
         (parse_junit_xml
            [{| TestSuite.tests := Some 20%Z; TestSuite.failures := Some 1%Z;
                TestSuite.skipped := None; TestSuite.errors := None;
                TestSuite.time := Some 3.5; TestSuite.testcases := [] |}])
         "unit") = Some signals ∧
    evaluate_release signals None None settings = Ok r ∧
    r.(decision) = Decision.APPROVE.
Proof.
  destruct (junit_release_decision
    [{| TestSuite.tests := Some 20%Z; TestSuite.failures := Some 1%Z;
        TestSuite.skipped := None; TestSuite.errors := None;
        TestSuite.time := Some 3.5; TestSuite.testcases := [] |}]
    "unit" 0.95) as (signals & r & Hs & Hr & Hd).
  - apply list_elem_of_here.
  - exists signals, r. split; [exact Hs |]. split; [exact Hr |].
    rewrite Hd. reflexivity.
Defined.

(** * Thresholds and weights do not interfere *)

(** The thresholds have no part in the score and the weights none in the
    rationale: two evaluations of the same signals that both return have
    the same risk score when they differ in their thresholds only, and the
    same rationale when they differ in their weights and settings only. *)
Theorem thresholds_and_weights_independent signals th th' w w' cfg cfg' r r' :
  evaluate_release signals th w cfg = Ok r →
  evaluate_release signals th' w' cfg' = Ok r' →
  (w = w' → r.(risk_score) = r'.(risk_score)) ∧
  (th = th' → r.(rationale) = r'.(rationale)).
Proof.
  intros Hr Hr'.
  apply evaluate_release_Ok_inv in Hr as (Hrun & Hscore & _).
  apply evaluate_release_Ok_inv in Hr' as (Hrun' & Hscore' & _).
  split.
  - intros <-. rewrite Hscore in Hscore'. now injection Hscore'.
  - intros <-. rewrite Hrun in Hrun'. now injection Hrun'.
Qed.

(** The bad release under the default and under a lenient e2e limit: the
    rationale changes, the score does not. *)
Lemma thresholds_and_weights_independent_witness :
  match
    evaluate_release [make_signal SignalType.TEST "e2e_pass_rate" 0.50]
      None None settings,
    evaluate_release [make_signal SignalType.TEST "e2e_pass_rate" 0.50]
      (Some {["e2e_pass_rate_min" := 0.4]}) None settings
  with
  | Ok r, Ok r' => r.(risk_score) = r'.(risk_score)
  | _, _ => False
  end.
Proof.
  destruct (evaluate_release
              [make_signal SignalType.TEST "e2e_pass_rate" 0.50]
              None None settings) as [r | e] eqn:Hr;
    [| vm_compute in Hr; discriminate Hr].
  destruct (evaluate_release
              [make_signal SignalType.TEST "e2e_pass_rate" 0.50]
              (Some {["e2e_pass_rate_min" := 0.4]}) None settings)
    as [r' | e] eqn:Hr'; [| vm_compute in Hr'; discriminate Hr'].
  destruct (thresholds_and_weights_independent _ _ _ _ _ _ _ _ _ Hr Hr')
    as [H _].
  apply H. reflexivity.
Defined.
